(** * gep: a concurrent proxy tester (main.go)

    A shallow embedding of [main.go] and the properties of its probe
    ([testProxy]), its worker pool ([TestProxies]), its proxy-list loader
    ([loadProxiesFromReader]) and [truncateString].

    Go strings are byte sequences and are modelled by [string]; Go [int],
    [time.Time] readings and [time.Duration] are 64-bit and are modelled by
    [Z] with the range written out where the code does arithmetic on them.
    The functions of the Go standard library that the program calls
    ([url.Parse], [net.ParseIP], [strings.TrimSpace], the HTTP transport)
    are not part of the repository: they are the fields of a [Platform]
    record over which every definition is parametrised.  The goroutines of
    [TestProxies] are modelled by an interleaving small-step semantics over
    buffered channels and a wait group. *)

From Stdlib Require Import ZArith String Ascii List Lia ZifyBool DecimalString.
From Stdlib Require PrimFloat Uint63.
From stdpp Require Import base tactics list relations.
Import ListNotations.

Local Open Scope Z_scope.
Local Open Scope string_scope.

(** ** Go values *)

Definition int_min : Z := - 2 ^ 63.
Definition int_max : Z := 2 ^ 63 - 1.

(** Wrap-around of 64-bit signed arithmetic. *)
Definition wrap64 (z : Z) : Z := (z + 2 ^ 63) mod 2 ^ 64 - 2 ^ 63.

(** [len(s)] of a Go string: its number of bytes. *)
Definition len (s : string) : Z := Z.of_nat (String.length s).

(** [strings.HasPrefix(s, prefix)]. *)
Definition HasPrefix (s prefix : string) : bool := String.prefix prefix s.

(** The verb [%d] of [fmt.Sprintf] on an [int]. *)
Definition fmt_d (z : Z) : string := NilZero.string_of_int (Z.to_int z).

(** A Go result pair [(value, err)] with [err] rendered by [%v], that is by
    its [Error()] message. *)
Inductive Result (A : Type) : Type :=
| Ok (a : A)
| Err (msg : string).
Arguments Ok {A} a.
Arguments Err {A} msg.

(** [time.Second] in nanoseconds, the unit of [time.Duration]. *)
Definition Second : Z := 1000000000.

(** [t.Sub(u)]: the difference of two clock readings, saturated to the range
    of [time.Duration]. *)
Definition time_Sub (t u : Z) : Z := Z.max int_min (Z.min int_max (t - u)).

(** ** The data model of main.go *)

(** [type ProxyResult struct] *)
Record ProxyResult : Type := mkProxyResult {
  Proxy : string;
  IsWorking : bool;
  IP : string;
  Error : string;
  Duration : Z
}.

(** [type ProxyTester struct] *)
Record ProxyTester : Type := mkProxyTester {
  timeout : Z;
  maxWorkers : Z;
  testURL : string
}.

(** [func NewProxyTester] *)
Definition NewProxyTester (timeout maxWorkers : Z) : ProxyTester :=
  {| timeout := timeout;
     maxWorkers := maxWorkers;
     testURL := "http://ifconfig.co/ip" |}.

Definition set_Error (e : string) (r : ProxyResult) : ProxyResult :=
  {| Proxy := Proxy r; IsWorking := IsWorking r; IP := IP r; Error := e;
     Duration := Duration r |}.

Definition set_Duration (d : Z) (r : ProxyResult) : ProxyResult :=
  {| Proxy := Proxy r; IsWorking := IsWorking r; IP := IP r; Error := Error r;
     Duration := d |}.

Definition set_IsWorking (b : bool) (r : ProxyResult) : ProxyResult :=
  {| Proxy := Proxy r; IsWorking := b; IP := IP r; Error := Error r;
     Duration := Duration r |}.

Definition set_IP (ip : string) (r : ProxyResult) : ProxyResult :=
  {| Proxy := Proxy r; IsWorking := IsWorking r; IP := ip; Error := Error r;
     Duration := Duration r |}.

(** ** The platform: net/url, net/http, net, strings, time *)

(** [url.URL], as far as a transport looks at it. *)
Record URL : Type := mkURL {
  Scheme : string;
  Host : string;
  Path : string
}.

(** A [context.Context] made by [context.WithTimeout]: when it was made and
    the timeout it carries. *)
Record Context : Type := mkContext {
  ctx_made : Z;
  ctx_timeout : Z
}.

(** [net.Dialer] *)
Record Dialer : Type := mkDialer {
  Timeout : Z;
  KeepAlive : Z
}.

(** [http.Transport], with the fields that [testProxy] sets. *)
Record Transport : Type := mkTransport {
  TransportProxy : URL;
  DialContext : Dialer;
  TLSHandshakeTimeout : Z;
  ResponseHeaderTimeout : Z;
  ExpectContinueTimeout : Z
}.

(** [http.Client] *)
Record Client : Type := mkClient {
  ClientTransport : Transport;
  ClientTimeout : Z
}.

(** [http.Request] *)
Record Request : Type := mkRequest {
  Method : string;
  RequestURL : URL;
  Header : list (string * string);
  RequestCtx : Context
}.

(** The body of a response: what [io.ReadAll] will find when it drains the
    connection, and how long that takes. *)
Record Body : Type := mkBody {
  body_read : Result string;
  body_latency : Z
}.

(** [http.Response] *)
Record Response : Type := mkResponse {
  StatusCode : Z;
  ResponseBody : Body
}.

(** What a round trip through the transport comes back with, and after how
    much time. *)
Record Reply : Type := mkReply {
  reply : Result Response;
  latency : Z
}.

Definition StatusOK : Z := 200.

(** Network operations, as the world records them. *)
Inductive NetEvent : Type :=
| NetRoundTrip (c : Client) (req : Request)
| NetReadBody (b : Body).

(** The world outside the program: the clock (nanoseconds) and the log of the
    network operations performed so far. *)
Record World : Type := mkWorld {
  now : Z;
  net : list NetEvent
}.

(** The library functions the program calls.  [RoundTrip] is the network seen
    through a client: its answer may depend on the state of the world. *)
Record Platform : Type := mkPlatform {
  url_Parse : string -> Result URL;
  net_ParseIP : string -> option (list Z);
  strings_TrimSpace : string -> string;
  RoundTrip : World -> Client -> Request -> Reply
}.

(** ** Effects: a state monad over the world *)

Definition M (A : Type) : Type := World -> A * World.

Definition ret {A : Type} (a : A) : M A := fun w => (a, w).

Definition bind {A B : Type} (c : M A) (k : A -> M B) : M B :=
  fun w => let (a, w') := c w in k a w'.

Notation "x <- c ;; k" := (bind c (fun x => k))
  (at level 100, c at next level, right associativity).

(** [time.Now()] *)
Definition time_Now : M Z := fun w => (now w, w).

(** [time.Since(t)] is [time.Now().Sub(t)]. *)
Definition time_Since (t : Z) : M Z := fun w => (time_Sub (now w) t, w).

(** [context.WithTimeout(context.Background(), d)] *)
Definition context_WithTimeout (d : Z) : M Context :=
  fun w => ({| ctx_made := now w; ctx_timeout := d |}, w).

(** [io.ReadAll(resp.Body)]: drains the connection. *)
Definition io_ReadAll (b : Body) : M (Result string) :=
  fun w => (body_read b,
            {| now := now w + body_latency b;
               net := net w ++ [NetReadBody b] |}).

(** [req.Header.Set(key, value)] *)
Definition Header_Set (key value : string) (req : Request) : Request :=
  {| Method := Method req;
     RequestURL := RequestURL req;
     Header := (key, value)
                 :: List.filter (fun kv => negb (String.eqb (fst kv) key))
                               (Header req);
     RequestCtx := RequestCtx req |}.

Section Probe.

Variable P : Platform.

(** [http.NewRequestWithContext(ctx, method, url, nil)] for a valid method:
    it fails when the URL does not parse. *)
Definition http_NewRequestWithContext (ctx : Context) (method url : string)
  : Result Request :=
  match url_Parse P url with
  | Err e => Err e
  | Ok u => Ok {| Method := method; RequestURL := u; Header := [];
                  RequestCtx := ctx |}
  end.

(** [client.Do(req)]: one round trip through the client's transport. *)
Definition client_Do (c : Client) (req : Request) : M (Result Response) :=
  fun w => let rep := RoundTrip P w c req in
           (reply rep,
            {| now := now w + latency rep;
               net := net w ++ [NetRoundTrip c req] |}).

(** ** [func (pt *ProxyTester) testProxy(proxyURL string) ProxyResult]

    The deferred [cancel()] and [resp.Body.Close()] release resources and
    touch nothing that the result depends on. *)
Definition testProxy (pt : ProxyTester) (proxyURL : string) : M ProxyResult :=
  start <- time_Now ;;
  let result := {| Proxy := proxyURL; IsWorking := false; IP := ""; Error := "";
                   Duration := 0 |} in
  ctx <- context_WithTimeout (timeout pt) ;;
  (* Parse proxy URL *)
  match url_Parse P proxyURL with
  | Err err =>
      let result := set_Error ("Invalid proxy URL: " ++ err) result in
      d <- time_Since start ;;
      ret (set_Duration d result)
  | Ok parsedProxy =>
      (* Create HTTP client with proxy *)
      let transport :=
        {| TransportProxy := parsedProxy;
           DialContext :=
             {| Timeout := 10 * Second; KeepAlive := 30 * Second |};
           TLSHandshakeTimeout := 10 * Second;
           ResponseHeaderTimeout := 10 * Second;
           ExpectContinueTimeout := 1 * Second |} in
      let client :=
        {| ClientTransport := transport; ClientTimeout := timeout pt |} in
      (* Create request *)
      match http_NewRequestWithContext ctx "GET" (testURL pt) with
      | Err err =>
          let result :=
            set_Error ("Failed to create request: " ++ err) result in
          d <- time_Since start ;;
          ret (set_Duration d result)
      | Ok req =>
          (* Set user agent *)
          let req := Header_Set "User-Agent" "ProxyTester/1.0" req in
          (* Make request *)
          resp <- client_Do client req ;;
          match resp with
          | Err err =>
              let result := set_Error ("Request failed: " ++ err) result in
              d <- time_Since start ;;
              ret (set_Duration d result)
          | Ok resp =>
              (* Check status code *)
              if negb (StatusCode resp =? StatusOK)%Z then
                let result :=
                  set_Error ("HTTP " ++ fmt_d (StatusCode resp)) result in
                d <- time_Since start ;;
                ret (set_Duration d result)
              else
                (* Read response body *)
                body <- io_ReadAll (ResponseBody resp) ;;
                match body with
                | Err err =>
                    let result :=
                      set_Error ("Failed to read response: " ++ err) result in
                    d <- time_Since start ;;
                    ret (set_Duration d result)
                | Ok body =>
                    (* Extract IP from response *)
                    let ip := strings_TrimSpace P body in
                    match net_ParseIP P ip with
                    | None =>
                        let result := set_Error "Invalid IP response" result in
                        d <- time_Since start ;;
                        ret (set_Duration d result)
                    | Some _ =>
                        let result := set_IsWorking true result in
                        let result := set_IP ip result in
                        d <- time_Since start ;;
                        ret (set_Duration d result)
                    end
                end
          end
      end
  end.

End Probe.

(** ** Channels, the wait group and goroutines

    [TestProxies] runs one goroutine per worker, one that closes [results]
    and the caller's.  They are modelled by a state machine: the state holds
    the position of every goroutine, the two channels, the counter of the
    wait group and the world, and a step runs one statement of one
    goroutine, chosen by the scheduler.  The call [pt.testProxy(proxy)] is one
    step: a probe shares nothing with the other goroutines but the network.
    Memory is unbounded in the model, and so is the counter of the wait
    group. *)

(** The outcome of one statement of a goroutine: it ran, it is blocked (on a
    channel or on the wait group), it panicked, or the goroutine has no
    statement left to run. *)
Inductive Step (S : Type) : Type :=
| Next (s : S)
| Blocked
| Panic (msg : string)
| Halted.
Arguments Next {S} s.
Arguments Blocked {S}.
Arguments Panic {S} msg.
Arguments Halted {S}.

Definition step_map {S T : Type} (f : S -> T) (x : Step S) : Step T :=
  match x with
  | Next s => Next (f s)
  | Blocked => Blocked
  | Panic m => Panic m
  | Halted => Halted
  end.

(** A buffered channel [make(chan A, cap)].  A send on a full buffer blocks;
    with capacity 0 every send blocks here (no rendezvous is modelled):
    it is proved below that [TestProxies] never sends on a full buffer, so
    that no rendezvous is ever needed. *)
Record Chan (A : Type) : Type := mkChan {
  buf : list A;
  cap : nat;
  closed : bool
}.
Arguments mkChan {A} buf cap closed.
Arguments buf {A} c.
Arguments cap {A} c.
Arguments closed {A} c.

Definition make_chan {A : Type} (n : nat) : Chan A :=
  {| buf := []; cap := n; closed := false |}.

(** [c <- x] *)
Definition chan_send {A : Type} (x : A) (c : Chan A) : Step (Chan A) :=
  if closed c then Panic "send on closed channel"
  else if (length (buf c) <? cap c)%nat
       then Next {| buf := buf c ++ [x]; cap := cap c; closed := closed c |}
       else Blocked.

(** [x, ok := <-c], the receive of a [for x := range c] loop. *)
Definition chan_recv {A : Type} (c : Chan A) : Step (option A * Chan A) :=
  match buf c with
  | x :: b => Next (Some x, {| buf := b; cap := cap c; closed := closed c |})
  | [] => if closed c then Next (None, c) else Blocked
  end.

(** [close(c)] *)
Definition chan_close {A : Type} (c : Chan A) : Step (Chan A) :=
  if closed c then Panic "close of closed channel"
  else Next {| buf := buf c; cap := cap c; closed := true |}.

(** [wg.Add(delta)] on the counter of a [sync.WaitGroup]; [wg.Done()] is
    [wg.Add(-1)].  A counter that goes negative is a panic. *)
Definition wg_Add (delta : Z) (counter : Z) : Step Z :=
  if (counter + delta <? 0)%Z then Panic "sync: negative WaitGroup counter"
  else Next (counter + delta).

(** [wg.Wait()] *)
Definition wg_Wait (counter : Z) : Step unit :=
  if (counter =? 0)%Z then Next tt else Blocked.

(** Where the goroutine that runs [TestProxies] stands. *)
Inductive MainPC : Type :=
| MLoop (i : Z)                        (* at the test [i < pt.maxWorkers] *)
| MGo (i : Z)                          (* after [wg.Add(1)], at [go func()] *)
| MSend (rest : list string)           (* [for _, proxy := range proxies] *)
| MCloseJobs                           (* at [close(jobs)] *)
| MGoCloser                            (* at the second [go func()] *)
| MCollect (allResults : list ProxyResult)   (* [for result := range results] *)
| MReturn (allResults : list ProxyResult).   (* [return allResults] *)

(** Where a worker goroutine stands. *)
Inductive WorkerPC : Type :=
| WRange                               (* at [for proxy := range jobs] *)
| WProbe (proxy : string)              (* at [result := pt.testProxy(proxy)] *)
| WSend (result : ProxyResult)         (* at [results <- result] *)
| WDone                                (* at the deferred [wg.Done()] *)
| WExit.

(** Where the goroutine that closes [results] stands. *)
Inductive CloserPC : Type :=
| CWait                                (* at [wg.Wait()] *)
| CClose                               (* at [close(results)] *)
| CExit.

Inductive Tid : Type :=
| TMain
| TWorker (k : nat)
| TCloser.

(** The state of one call of [TestProxies].  [probed] is a ghost log of the
    addresses on which [testProxy] was called, in the order of the calls. *)
Record Pool : Type := mkPool {
  main : MainPC;
  workers : list WorkerPC;
  closer : option CloserPC;
  jobs : Chan string;
  results : Chan ProxyResult;
  wg : Z;
  world : World;
  probed : list string
}.

Definition set_main (m : MainPC) (s : Pool) : Pool :=
  mkPool m (workers s) (closer s) (jobs s) (results s) (wg s) (world s)
         (probed s).

Definition set_worker (k : nat) (w : WorkerPC) (s : Pool) : Pool :=
  mkPool (main s) (<[k:=w]> (workers s)) (closer s) (jobs s) (results s) (wg s)
         (world s) (probed s).

Definition add_worker (w : WorkerPC) (s : Pool) : Pool :=
  mkPool (main s) (workers s ++ [w]) (closer s) (jobs s) (results s) (wg s)
         (world s) (probed s).

Definition set_closer (c : CloserPC) (s : Pool) : Pool :=
  mkPool (main s) (workers s) (Some c) (jobs s) (results s) (wg s) (world s)
         (probed s).

Definition set_jobs (c : Chan string) (s : Pool) : Pool :=
  mkPool (main s) (workers s) (closer s) c (results s) (wg s) (world s)
         (probed s).

Definition set_results (c : Chan ProxyResult) (s : Pool) : Pool :=
  mkPool (main s) (workers s) (closer s) (jobs s) c (wg s) (world s) (probed s).

Definition set_wg (n : Z) (s : Pool) : Pool :=
  mkPool (main s) (workers s) (closer s) (jobs s) (results s) n (world s)
         (probed s).

Definition set_probe (p : string) (w : World) (s : Pool) : Pool :=
  mkPool (main s) (workers s) (closer s) (jobs s) (results s) (wg s) w
         (probed s ++ [p]).

Section PoolSemantics.

Variable P : Platform.
Variable pt : ProxyTester.
Variable proxies : list string.

(** [jobs := make(chan string, len(proxies))],
    [results := make(chan ProxyResult, len(proxies))], [var wg sync.WaitGroup]
    and [i := 0]. *)
Definition init (w : World) : Pool :=
  {| main := MLoop 0;
     workers := [];
     closer := None;
     jobs := make_chan (length proxies);
     results := make_chan (length proxies);
     wg := 0;
     world := w;
     probed := [] |}.

(** One statement of the goroutine of [TestProxies].  In [MGo] the counter
    [i] is below [pt.maxWorkers], so [i++] does not wrap. *)
Definition exec_main (s : Pool) : Step Pool :=
  match main s with
  | MLoop i =>
      if (i <? maxWorkers pt)%Z
      then step_map (fun n => set_main (MGo i) (set_wg n s)) (wg_Add 1 (wg s))
      else Next (set_main (MSend proxies) s)
  | MGo i => Next (set_main (MLoop (i + 1)) (add_worker WRange s))
  | MSend [] => Next (set_main MCloseJobs s)
  | MSend (proxy :: rest) =>
      step_map (fun c => set_main (MSend rest) (set_jobs c s))
               (chan_send proxy (jobs s))
  | MCloseJobs =>
      step_map (fun c => set_main MGoCloser (set_jobs c s))
               (chan_close (jobs s))
  | MGoCloser => Next (set_main (MCollect []) (set_closer CWait s))
  | MCollect allResults =>
      step_map (fun rc =>
                  match fst rc with
                  | Some result =>
                      set_main (MCollect (allResults ++ [result]))
                               (set_results (snd rc) s)
                  | None =>
                      set_main (MReturn allResults) (set_results (snd rc) s)
                  end)
               (chan_recv (results s))
  | MReturn _ => Halted
  end.

(** One statement of worker [k]. *)
Definition exec_worker (k : nat) (s : Pool) : Step Pool :=
  match workers s !! k with
  | None => Halted
  | Some WRange =>
      step_map (fun pc =>
                  match fst pc with
                  | Some proxy =>
                      set_worker k (WProbe proxy) (set_jobs (snd pc) s)
                  | None => set_worker k WDone (set_jobs (snd pc) s)
                  end)
               (chan_recv (jobs s))
  | Some (WProbe proxy) =>
      let (result, w') := testProxy P pt proxy (world s) in
      Next (set_worker k (WSend result) (set_probe proxy w' s))
  | Some (WSend result) =>
      step_map (fun c => set_worker k WRange (set_results c s))
               (chan_send result (results s))
  | Some WDone =>
      step_map (fun n => set_worker k WExit (set_wg n s)) (wg_Add (-1) (wg s))
  | Some WExit => Halted
  end.

(** One statement of the goroutine that waits for the workers. *)
Definition exec_closer (s : Pool) : Step Pool :=
  match closer s with
  | None => Halted
  | Some CWait => step_map (fun _ => set_closer CClose s) (wg_Wait (wg s))
  | Some CClose =>
      step_map (fun c => set_closer CExit (set_results c s))
               (chan_close (results s))
  | Some CExit => Halted
  end.

Definition exec (t : Tid) (s : Pool) : Step Pool :=
  match t with
  | TMain => exec_main s
  | TWorker k => exec_worker k s
  | TCloser => exec_closer s
  end.

(** What [TestProxies] has returned, once it has. *)
Definition returned (s : Pool) : option (list ProxyResult) :=
  match main s with
  | MReturn allResults => Some allResults
  | _ => None
  end.

(** The scheduler picks a goroutine that can run. *)
Definition step (s s' : Pool) : Prop := exists t, exec t s = Next s'.

Definition panics (s : Pool) : Prop := exists t msg, exec t s = Panic msg.

Definition reachable (w : World) (s : Pool) : Prop := rtc step (init w) s.

(** [must_return Q s]: from [s], whatever the scheduler does, no goroutine
    panics, some goroutine can always run until [TestProxies] returns, and it
    does return, with a result and in a state that satisfy [Q]. *)
Inductive must_return (Q : list ProxyResult -> Pool -> Prop) (s : Pool)
  : Prop :=
| mr_return allResults :
    returned s = Some allResults -> Q allResults s -> must_return Q s
| mr_step :
    returned s = None ->
    ~ panics s ->
    (exists s', step s s') ->
    (forall s', step s s' -> must_return Q s') ->
    must_return Q s.

(** Running the pool under a given schedule: each entry names the goroutine
    that runs one statement; an entry whose goroutine cannot run is skipped. *)
Fixpoint run (sched : list Tid) (s : Pool) : Step Pool :=
  match sched with
  | [] => Next s
  | t :: sched' =>
      match exec t s with
      | Next s' => run sched' s'
      | Panic msg => Panic msg
      | Blocked | Halted => run sched' s
      end
  end.

(** [TestProxies] under a round-robin scheduler over main, the closer and
    [n] workers, for [fuel] rounds. *)
Definition round_robin (n : nat) : list Tid :=
  TMain :: TCloser :: map TWorker (seq 0 n).

Definition TestProxies_rr (fuel : nat) (w : World)
  : option (list ProxyResult) :=
  match run (concat (replicate fuel (round_robin (Z.to_nat (maxWorkers pt)))))
            (init w) with
  | Next s => returned s
  | _ => None
  end.

(** Probing the addresses one after the other, in order: what a sequential
    [TestProxies] would do. *)
Fixpoint probe_all (ps : list string) : M (list ProxyResult) :=
  match ps with
  | [] => ret []
  | p :: ps' =>
      r <- testProxy P pt p ;;
      rs <- probe_all ps' ;;
      ret (r :: rs)
  end.

End PoolSemantics.

(** ** [func loadProxiesFromReader(reader io.Reader) ([]string, error)]

    The reader is seen through the [bufio.Scanner]: [lines] are the texts
    that the successive [scanner.Scan()] calls yield and [scan_err] is what
    [scanner.Err()] reports once [Scan] has returned false. *)

Section Loader.

Variable P : Platform.

(** The body of the [for scanner.Scan()] loop. *)
Definition load_line (proxies : list string) (text : string) : list string :=
  let line := strings_TrimSpace P text in
  if negb (String.eqb line "") && negb (HasPrefix line "#") then
    (* Add protocol if missing *)
    let line :=
      if negb (HasPrefix line "http://") && negb (HasPrefix line "https://")
         && negb (HasPrefix line "socks5://")
      then "http://" ++ line
      else line in
    proxies ++ [line]
  else proxies.

Definition loadProxiesFromReader (lines : list string)
  (scan_err : option string) : list string * option string :=
  (fold_left load_line lines [], scan_err).

End Loader.

(** A line has a recognised scheme. *)
Definition has_scheme (line : string) : bool :=
  HasPrefix line "http://" || HasPrefix line "https://"
  || HasPrefix line "socks5://".

(** What the loader is to do with a trimmed line: keep it unless it is blank
    or a comment, ... *)
Definition keep_line (line : string) : bool :=
  negb (String.eqb line "") && negb (HasPrefix line "#").

(** ... and give it the scheme [http://] when it has none. *)
Definition with_scheme (line : string) : string :=
  if has_scheme line then line else "http://" ++ line.

(** ** [func truncateString(s string, maxLen int) string] *)

(** The slice expression [s[:hi]]; [None] is the run-time panic
    "slice bounds out of range". *)
Definition slice_to (s : string) (hi : Z) : option string :=
  if (hi <? 0)%Z || (len s <? hi)%Z then None
  else Some (substring 0 (Z.to_nat hi) s).

Definition truncateString (s : string) (maxLen : Z) : option string :=
  if (len s <=? maxLen)%Z then Some s
  else match slice_to s (wrap64 (maxLen - 3)) with
       | Some prefix => Some (prefix ++ "...")
       | None => None
       end.

(** ** A test fixture for the platform

    A canned network in the manner of a test double: the proxy decides the
    answer.  It serves to run the definitions on concrete inputs. *)

Module Fixture.

Definition is_space (c : ascii) : bool :=
  let n := nat_of_ascii c in
  ((9 <=? n) && (n <=? 13) || (n =? 32))%nat.

Fixpoint trim_left (s : string) : string :=
  match s with
  | String c s' => if is_space c then trim_left s' else s
  | EmptyString => EmptyString
  end.

Fixpoint trim_right (s : string) : string :=
  match s with
  | String c s' =>
      match trim_right s' with
      | EmptyString => if is_space c then EmptyString else String c EmptyString
      | t => String c t
      end
  | EmptyString => EmptyString
  end.

(** The line feed. *)
Definition LF : string := String (ascii_of_nat 10) EmptyString.

(** Trimming of ASCII white space. *)
Definition TrimSpace (s : string) : string := trim_right (trim_left s).

(** Rejects the addresses with a broken percent escape after the scheme. *)
Definition Parse (s : string) : Result URL :=
  if HasPrefix s "http://%" then Err "invalid URL escape"
  else Ok {| Scheme := "http"; Host := s; Path := "" |}.

(** Knows one address. *)
Definition ParseIP (s : string) : option (list Z) :=
  if String.eqb s "203.0.113.7" then Some [203; 0; 113; 7]%Z else None.

Definition response (status : Z) (body : string) : Response :=
  {| StatusCode := status;
     ResponseBody := {| body_read := Ok body; body_latency := 2 |} |}.

(** The responses behind the proxies [good], [forbidden], [nocontent] and
    [chatty], and the one behind [cut], whose body breaks off. *)
Definition good : Response := response 200 (" 203.0.113.7" ++ LF).
Definition forbidden : Response := response 403 "Forbidden".
Definition no_content : Response := response 204 "203.0.113.7".
Definition chatty : Response := response 200 "hello".
Definition cut : Response :=
  {| StatusCode := 200;
     ResponseBody :=
       {| body_read := Err "unexpected EOF"; body_latency := 7 |} |}.

Definition answer (resp : Response) : Reply :=
  {| reply := Ok resp; latency := 40 |}.

Definition transport (w : World) (c : Client) (req : Request) : Reply :=
  let proxy := Host (TransportProxy (ClientTransport c)) in
  if String.eqb proxy "http://good:8080" then answer good
  else if String.eqb proxy "http://forbidden:8080" then answer forbidden
  else if String.eqb proxy "http://nocontent:8080" then answer no_content
  else if String.eqb proxy "http://chatty:8080" then answer chatty
  else if String.eqb proxy "http://cut:8080" then answer cut
  else {| reply := Err "proxyconnect tcp: connection refused"; latency := 3 |}.

Definition platform : Platform :=
  {| url_Parse := Parse;
     net_ParseIP := ParseIP;
     strings_TrimSpace := TrimSpace;
     RoundTrip := transport |}.

Definition tester (n : Z) : ProxyTester := NewProxyTester (15 * Second) n.

Definition world0 : World := {| now := 1000; net := [] |}.

Definition three_proxies : list string :=
  ["http://good:8080"; "http://%zz"; "http://down:1"].

End Fixture.

(** ** Standard output, files and the operating system *)

(** What the program writes: a text on standard output, the creation of a
    file, a text written to a file. *)
Inductive Out : Type :=
| Stdout (text : string)
| Create (name : string)
| Write (name : string) (text : string).

(** A computation that writes and then either yields a value or has
    panicked ([None]); what was written before a panic stays written. *)
Definition IO (A : Type) : Type := list Out * option A.

Definition retIO {A : Type} (a : A) : IO A := ([], Some a).

Definition bindIO {A B : Type} (c : IO A) (k : A -> IO B) : IO B :=
  match c with
  | (out, None) => (out, None)
  | (out, Some a) => let (out', b) := k a in ((out ++ out')%list, b)
  end.

Notation "x <~ c ;; k" := (bindIO c (fun x => k))
  (at level 100, c at next level, right associativity).

(** The newline. *)
Definition NL : string := String (ascii_of_nat 10) EmptyString.

(** [fmt.Print(text)] *)
Definition Print (text : string) : IO unit := ([Stdout text], Some tt).

(** [fmt.Println(text)] *)
Definition Println (text : string) : IO unit := Print (text ++ NL).

(** A panic of the run time. *)
Definition panic {A : Type} : IO A := ([], None).

(** [strings.Repeat(s, count)] for a count that is not negative. *)
Fixpoint Repeat (s : string) (count : nat) : string :=
  match count with
  | O => ""
  | S n => s ++ Repeat s n
  end.

(** The conversion [float64(n)] of an [int] [n]; it is used on counts, which
    are not negative (the most negative [int] is out of its reach). *)
Definition float64 (n : Z) : PrimFloat.float :=
  if (n <? 0)%Z
  then PrimFloat.opp (PrimFloat.of_uint63 (Uint63.of_Z (- n)))
  else PrimFloat.of_uint63 (Uint63.of_Z n).

(** The formatting functions of the library that [printResults] relies on:
    [utf8.RuneCountInString], by which [fmt] measures the width of a string;
    the verb [%.Nf] on a [float64], by precision [N]; and
    [Duration.Seconds]. *)
Record Fmt : Type := mkFmt {
  RuneCount : string -> nat;
  Sprintf_f : nat -> PrimFloat.float -> string;
  Seconds : Z -> PrimFloat.float
}.

(** The operating system as [main] sees it: the name of the program, the
    files that can be opened (each seen through a [bufio.Scanner], as for
    [loadProxiesFromReader]), the mode of standard input, what standard input
    holds, and whether a file can be created. *)
Record OS : Type := mkOS {
  Args0 : string;
  os_Open : string -> Result (list string * option string);
  Stdin_Stat : Result Z;
  Stdin : list string * option string;
  os_Create : string -> Result unit
}.

(** [os.ModeCharDevice], a bit of [fs.FileMode]. *)
Definition ModeCharDevice : Z := Z.shiftl 1 21.

(** ** [func loadProxiesFromFile(filename string) ([]string, error)] *)
Definition loadProxiesFromFile (P : Platform) (os : OS) (filename : string)
  : list string * option string :=
  match os_Open os filename with
  | Err err => ([], Some err)
  | Ok file => loadProxiesFromReader P (fst file) (snd file)
  end.

(** ** [func isStdinAvailable() bool] *)
Definition isStdinAvailable (os : OS) : bool :=
  match Stdin_Stat os with
  | Err _ => false
  | Ok mode => (Z.land mode ModeCharDevice =? 0)%Z
  end.

(** ** [func printResults(results []ProxyResult)] *)

Section Printing.

Variable F : Fmt.

(** The verb [%-Ns]: the string, then spaces up to the width [N]. *)
Definition pad_right (width : nat) (text : string) : string :=
  text ++ Repeat " " (width - RuneCount F text).

(** The format ["%-50s %-10s %-15s %-10s %s\n"]. *)
Definition table_row (c1 c2 c3 c4 c5 : string) : string :=
  pad_right 50 c1 ++ " " ++ pad_right 10 c2 ++ " " ++ pad_right 15 c3 ++ " "
  ++ pad_right 10 c4 ++ " " ++ c5 ++ NL.

(** The body of the loop over the results, with the count of the working
    proxies so far.  The count stays below the number of results and does
    not wrap. *)
Fixpoint print_rows (results : list ProxyResult) (workingCount : Z) : IO Z :=
  match results with
  | [] => retIO workingCount
  | result :: rest =>
      sc <~ (if IsWorking result
             then _ <~ Println (Proxy result) ;;
                  retIO ("WORKING", (workingCount + 1)%Z)
             else retIO ("FAILED", workingCount)) ;;
      let status := fst sc in
      let workingCount := snd sc in
      let duration := Sprintf_f F 2 (Seconds F (Duration result)) ++ "s" in
      proxy <~ match truncateString (Proxy result) 50 with
               | Some proxy => retIO proxy
               | None => panic
               end ;;
      _ <~ Print (table_row proxy status (IP result) duration (Error result)) ;;
      print_rows rest workingCount
  end.

(** The format ["\nSummary: %d/%d proxies working (%.1f%%)\n"]. *)
Definition summary (workingCount total : Z) : string :=
  NL ++ "Summary: " ++ fmt_d workingCount ++ "/" ++ fmt_d total
  ++ " proxies working ("
  ++ Sprintf_f F 1 (PrimFloat.mul
                      (PrimFloat.div (float64 workingCount) (float64 total))
                      (float64 100))
  ++ "%)" ++ NL.

Definition printResults (results : list ProxyResult) : IO unit :=
  _ <~ Print (NL ++ table_row "PROXY" "STATUS" "IP" "TIME" "ERROR") ;;
  _ <~ Println (Repeat "-" 100) ;;
  workingCount <~ print_rows results 0 ;;
  Print (summary workingCount (Z.of_nat (length results))).

End Printing.

(** ** [func main()]

    The flags are taken as [flag.Parse] leaves them.  [main] runs in two
    parts around the call of [TestProxies]: [main_start] up to the making of
    the tester, [main_finish] from [printResults] on. *)

(** The flags [-l], [-w], [-t] and [-v]: the variables [proxyFile],
    [workers], [timeout] and [showVersion] of [main]. *)
Record Flags : Type := mkFlags {
  proxyFile : string;
  workersFlag : Z;
  timeoutFlag : Z;
  showVersion : bool
}.

(** How the first part of [main] ends: with the exit of the process, or with
    a tester and the proxies to test. *)
Inductive Started : Type :=
| Exit (code : Z)
| Run (tester : ProxyTester) (proxies : list string).

Section Main.

Variable P : Platform.
Variable F : Fmt.
Variable os : OS.

(** The choice of the input and its loading: the proxies, or [None] after
    [os.Exit(1)]. *)
Definition main_load (fl : Flags) : IO (option (list string)) :=
  if negb (String.eqb (proxyFile fl) "") then
    (* Load from file *)
    _ <~ Print ("Loading proxies from file: " ++ proxyFile fl ++ NL) ;;
    match loadProxiesFromFile P os (proxyFile fl) with
    | (_, Some err) =>
        _ <~ Print ("Error loading proxies from file: " ++ err ++ NL) ;;
        retIO None
    | (proxies, None) => retIO (Some proxies)
    end
  else if isStdinAvailable os then
    (* Load from stdin *)
    _ <~ Println "Reading proxies from stdin..." ;;
    match loadProxiesFromReader P (fst (Stdin os)) (snd (Stdin os)) with
    | (_, Some err) =>
        _ <~ Print ("Error reading proxies from stdin: " ++ err ++ NL) ;;
        retIO None
    | (proxies, None) => retIO (Some proxies)
    end
  else
    (* No input provided *)
    _ <~ Println "No proxy input provided." ;;
    _ <~ Println (NL ++ "Usage examples:") ;;
    _ <~ Print ("  " ++ Args0 os ++ " -l proxies.txt" ++ NL) ;;
    _ <~ Print ("  cat proxies.txt | " ++ Args0 os ++ NL) ;;
    _ <~ Print ("  echo '192.168.1.1:8080' | " ++ Args0 os ++ NL) ;;
    retIO None.

Definition main_start (fl : Flags) : IO Started :=
  if showVersion fl then
    _ <~ Println "Proxy Tester v1.0" ;;
    retIO (Exit 0)
  else
    _ <~ Println "Concurrent Proxy Tester" ;;
    _ <~ Println "=======================" ;;
    loaded <~ main_load fl ;;
    match loaded with
    | None => retIO (Exit 1)
    | Some proxies =>
        if (Z.of_nat (length proxies) =? 0)%Z then
          _ <~ Println "No proxies to test!" ;;
          retIO (Exit 1)
        else
          _ <~ Print ("Testing " ++ fmt_d (Z.of_nat (length proxies))
                      ++ " proxies with " ++ fmt_d (workersFlag fl)
                      ++ " workers (timeout: " ++ fmt_d (timeoutFlag fl)
                      ++ "s)..." ++ NL) ;;
          (* Create proxy tester *)
          retIO (Run (NewProxyTester (wrap64 (timeoutFlag fl * Second))
                                     (workersFlag fl))
                     proxies)
    end.

(** The loop that gathers the working proxies. *)
Definition workingProxies (results : list ProxyResult) : list string :=
  fold_left (fun working result =>
               if IsWorking result then (working ++ [Proxy result])%list
               else working)
            results [].

(** The loop of [file.WriteString(proxy + "\n")]; the errors of the writes
    are ignored, as in the source. *)
Fixpoint write_proxies (working : list string) : IO unit :=
  match working with
  | [] => retIO tt
  | proxy :: rest =>
      _ <~ ([Write "working_proxies.txt" (proxy ++ NL)], Some tt) ;;
      write_proxies rest
  end.

Definition main_finish (results : list ProxyResult) : IO unit :=
  (* Print results *)
  _ <~ printResults F results ;;
  (* Save working proxies to file *)
  let working := workingProxies results in
  if (0 <? Z.of_nat (length working))%Z then
    match os_Create os "working_proxies.txt" with
    | Ok _ =>
        _ <~ ([Create "working_proxies.txt"], Some tt) ;;
        _ <~ write_proxies working ;;
        Print (NL ++ "Working proxies saved to: working_proxies.txt" ++ NL)
    | Err _ => retIO tt
    end
  else retIO tt.

(** [main_always fl w Q]: started in world [w], [main] ends under every
    schedule of the pool, without panic or deadlock, having written [out] and
    left the world [w'], with an exit code [code], such that [Q out code w']. *)
Definition main_always (fl : Flags) (w : World)
  (Q : list Out -> Z -> World -> Prop) : Prop :=
  match main_start fl with
  | (_, None) => False
  | (out, Some (Exit code)) => Q out code w
  | (out, Some (Run tester proxies)) =>
      must_return P tester proxies
        (fun results s =>
           match main_finish results with
           | (out', Some _) => Q (out ++ out')%list 0%Z (world s)
           | (_, None) => False
           end)
        (init proxies w)
  end.

End Main.

(** The texts written to files, in order. *)
Definition written (out : list Out) : list string :=
  flat_map (fun o => match o with Write _ text => [text] | _ => [] end) out.

(** The files created, in order. *)
Definition created (out : list Out) : list string :=
  flat_map (fun o => match o with Create name => [name] | _ => [] end) out.

(** The texts written to standard output, in order. *)
Definition printed (out : list Out) : list string :=
  flat_map (fun o => match o with Stdout text => [text] | _ => [] end) out.

(** The address as the table shows it: whole up to 50 bytes, and otherwise
    its first 47 bytes and three dots. *)
Definition shown (proxy : string) : string :=
  if (len proxy <=? 50)%Z then proxy else substring 0 47 proxy ++ "...".

(** What [printResults] is to write for one result: the address on a line of
    its own when the proxy works, then the row of the table. *)
Definition result_lines (F : Fmt) (result : ProxyResult) : list string :=
  app (if IsWorking result then [Proxy result ++ NL] else [])
      [table_row F (shown (Proxy result))
         (if IsWorking result then "WORKING" else "FAILED")
         (IP result)
         (Sprintf_f F 2 (Seconds F (Duration result)) ++ "s")
         (Error result)].

(** A fixture for the formatting functions and the operating system. *)
Module FixtureOS.

Definition fmt : Fmt :=
  {| RuneCount := String.length;
     Sprintf_f := fun _ x => if PrimFloat.is_nan x then "NaN" else "#";
     Seconds := fun d => float64 (Z.quot d Second) |}.

Definition list_file : list string * option string :=
  (["good:8080"; "# spare"; "http://%zz"; ""; "socks5://down:1"], None).

Definition os : OS :=
  {| Args0 := "gep";
     os_Open := fun name => if String.eqb name "proxies.txt" then Ok list_file
                            else Err "open: no such file or directory";
     Stdin_Stat := Ok (Z.shiftl 1 25);
     Stdin := (["chatty:8080"], None);
     os_Create := fun _ => Ok tt |}.

Definition flags (n : Z) : Flags :=
  {| proxyFile := "proxies.txt"; workersFlag := n; timeoutFlag := 15;
     showVersion := false |}.

(** The same system with a terminal for standard input. *)
Definition os_terminal : OS :=
  {| Args0 := "gep";
     os_Open := os_Open os;
     Stdin_Stat := Ok (Z.lor (Z.shiftl 1 26) ModeCharDevice);
     Stdin := ([], None);
     os_Create := fun _ => Err "permission denied" |}.

(** What the list file holds for the loader. *)
Definition loaded : list string :=
  ["http://good:8080"; "http://%zz"; "socks5://down:1"].

(** A pool of two workers part of the way: main has sent the first of three
    addresses, and the first worker has probed it and holds the result. *)
Definition schedule : list Tid :=
  [TMain; TMain; TMain; TMain; TMain; TMain; TWorker 0; TWorker 0].

Definition midway : Pool :=
  Eval vm_compute in
    match run Fixture.platform (Fixture.tester 2) Fixture.three_proxies
              schedule (init Fixture.three_proxies Fixture.world0) with
    | Next s => s
    | _ => init Fixture.three_proxies Fixture.world0
    end.

End FixtureOS.



(** ** The invariant of the pool *)

(** The address a worker holds and has not probed yet. *)
Definition held_addr (w : WorkerPC) : list string :=
  match w with
  | WProbe proxy => [proxy]
  | _ => []
  end.

(** The result a worker holds and has not sent yet. *)
Definition held_result (w : WorkerPC) : list ProxyResult :=
  match w with
  | WSend result => [result]
  | _ => []
  end.

(** A worker that has not called [wg.Done()] yet counts in the wait group. *)
Definition alive (w : WorkerPC) : nat :=
  match w with
  | WExit => 0
  | _ => 1
  end.

(** A worker that has left its [range] loop. *)
Definition quit (w : WorkerPC) : bool :=
  match w with
  | WDone | WExit => true
  | _ => false
  end.

Section PoolInvariant.

Variable pt : ProxyTester.
Variable proxies : list string.

(** The addresses that main has still to send. *)
Definition main_rest (m : MainPC) : list string :=
  match m with
  | MLoop _ | MGo _ => proxies
  | MSend rest => rest
  | _ => []
  end.

(** The results that main has collected. *)
Definition main_results (m : MainPC) : list ProxyResult :=
  match m with
  | MCollect allResults | MReturn allResults => allResults
  | _ => []
  end.

(** The addresses not probed yet, oldest first: held by a worker, queued in
    [jobs], still to be sent. *)
Definition pending (s : Pool) : list string :=
  flat_map held_addr (workers s) ++ buf (jobs s) ++ main_rest (main s).

(** The results of the probes made, oldest first: collected, queued in
    [results], held by a worker. *)
Definition produced (s : Pool) : list ProxyResult :=
  main_results (main s) ++ buf (results s) ++ flat_map held_result (workers s).

(** What each position of main implies for the workers, [jobs] and the
    closer. *)
Definition phase_ok (s : Pool) : Prop :=
  match main s with
  | MLoop i =>
      (0 <= i)%Z /\ (i <= maxWorkers pt \/ i = 0)%Z /\
      length (workers s) = Z.to_nat i /\
      closed (jobs s) = false /\ closer s = None
  | MGo i =>
      (0 <= i < maxWorkers pt)%Z /\
      length (workers s) = Z.to_nat i /\
      closed (jobs s) = false /\ closer s = None
  | MSend _ | MCloseJobs =>
      length (workers s) = Z.to_nat (maxWorkers pt) /\
      closed (jobs s) = false /\ closer s = None
  | MGoCloser =>
      length (workers s) = Z.to_nat (maxWorkers pt) /\
      closed (jobs s) = true /\ closer s = None
  | MCollect _ =>
      length (workers s) = Z.to_nat (maxWorkers pt) /\
      closed (jobs s) = true /\ closer s <> None
  | MReturn _ =>
      length (workers s) = Z.to_nat (maxWorkers pt) /\
      closed (jobs s) = true /\ closer s = Some CExit /\ buf (results s) = []
  end.

(** [results] is closed by the closer only, once the wait group is at zero. *)
Definition closer_ok (s : Pool) : Prop :=
  match closer s with
  | None | Some CWait => closed (results s) = false
  | Some CClose => closed (results s) = false /\ wg s = 0%Z
  | Some CExit => closed (results s) = true /\ wg s = 0%Z
  end.

(** The wait group counts the workers that are alive, and the one that main
    has announced and not started yet. *)
Definition wg_ok (s : Pool) : Prop :=
  wg s = (Z.of_nat (sum_list_with alive (workers s))
          + match main s with MGo _ => 1 | _ => 0 end)%Z.

(** A worker leaves its loop only when [jobs] is closed and drained. *)
Definition quit_ok (s : Pool) : Prop :=
  Forall (fun w => quit w = true -> closed (jobs s) = true /\ buf (jobs s) = [])
         (workers s).

Record Inv (s : Pool) : Prop := mkInv {
  inv_cap_jobs : cap (jobs s) = length proxies;
  inv_cap_results : cap (results s) = length proxies;
  inv_items : Permutation (map Proxy (produced s) ++ pending s) proxies;
  inv_probed : Permutation (probed s) (map Proxy (produced s));
  inv_wg : wg_ok s;
  inv_quit : quit_ok s;
  inv_phase : phase_ok s;
  inv_closer : closer_ok s
}.

(** The number of statements that the goroutines can still run: every step
    of the pool lowers it. *)
Definition weight_main (m : MainPC) : nat :=
  match m with
  | MLoop i => 5 * Z.to_nat (maxWorkers pt - i) + 7 + 5 * length proxies
  | MGo i => 5 * Z.to_nat (maxWorkers pt - i) + 6 + 5 * length proxies
  | MSend rest => 6 + 5 * length rest
  | MCloseJobs => 5
  | MGoCloser => 4
  | MCollect _ => 1
  | MReturn _ => 0
  end.

Definition weight_worker (w : WorkerPC) : nat :=
  match w with
  | WRange => 2
  | WProbe _ => 5
  | WSend _ => 4
  | WDone => 1
  | WExit => 0
  end.

Definition weight_closer (c : option CloserPC) : nat :=
  match c with
  | Some CWait => 2
  | Some CClose => 1
  | Some CExit | None => 0
  end.

Definition weight (s : Pool) : nat :=
  weight_main (main s) + sum_list_with weight_worker (workers s)
  + weight_closer (closer s) + 4 * length (buf (jobs s))
  + length (buf (results s)).

End PoolInvariant.

(** The world after probing the addresses [ps] one after the other. *)
Definition world_after (P : Platform) (pt : ProxyTester) (ps : list string)
  (w : World) : World :=
  fold_left (fun w' p => snd (testProxy P pt p w')) ps w.

(** The pool has worked through the addresses in order: those no longer
    pending are a prefix [done] of the input, and the results produced and
    the world are those of probing [done] sequentially from world [w]. *)
Definition in_order (P : Platform) (pt : ProxyTester) (proxies : list string)
  (w : World) (s : Pool) : Prop :=
  exists done : list string,
    proxies = (done ++ pending proxies s)%list /\
    probe_all P pt done w = (produced s, world s).

(** Every result produced is the result [f] assigns to its address. *)
Definition results_of (f : string -> ProxyResult) (s : Pool) : Prop :=
  Forall (fun r => r = f (Proxy r)) (produced s).

(** The probe is deterministic: its result depends on the address only, not
    on the state of the world in which it runs. *)
Definition deterministic (P : Platform) (pt : ProxyTester) : Prop :=
  forall (proxyURL : string) (w w' : World),
    fst (testProxy P pt proxyURL w) = fst (testProxy P pt proxyURL w').

(** The tester [pt] with another worker count. *)
Definition with_workers (n : Z) (pt : ProxyTester) : ProxyTester :=
  {| timeout := timeout pt; maxWorkers := n; testURL := testURL pt |}.

(** ** What a probe sends and receives *)

(** The client that [testProxy] builds for a parsed proxy address. *)
Definition probe_client (pt : ProxyTester) (parsedProxy : URL) : Client :=
  {| ClientTransport :=
       {| TransportProxy := parsedProxy;
          DialContext := {| Timeout := 10 * Second; KeepAlive := 30 * Second |};
          TLSHandshakeTimeout := 10 * Second;
          ResponseHeaderTimeout := 10 * Second;
          ExpectContinueTimeout := 1 * Second |};
     ClientTimeout := timeout pt |}.

(** The request that [testProxy] builds, at the time of world [w], for the
    parsed test URL. *)
Definition probe_request (pt : ProxyTester) (target : URL) (w : World)
  : Request :=
  Header_Set "User-Agent" "ProxyTester/1.0"
    {| Method := "GET"; RequestURL := target; Header := [];
       RequestCtx := {| ctx_made := now w; ctx_timeout := timeout pt |} |}.

(** The probe of [proxyURL] started in world [w] gets as far as the round trip
    and receives the HTTP response [resp]. *)
Definition receives (P : Platform) (pt : ProxyTester) (proxyURL : string)
  (w : World) (resp : Response) : Prop :=
  exists parsedProxy target,
    url_Parse P proxyURL = Ok parsedProxy /\
    url_Parse P (testURL pt) = Ok target /\
    reply (RoundTrip P w (probe_client pt parsedProxy)
             (probe_request pt target w))
    = Ok resp.

(** The result reports the status code of [resp] as its failure. *)
Definition rejected_on_status (r : ProxyResult) (resp : Response) : Prop :=
  IsWorking r = false /\ Error r = "HTTP " ++ fmt_d (StatusCode resp).

(** * Properties *)

(** ** The fixture at work *)

Example probe_good :
  fst (testProxy Fixture.platform (Fixture.tester 10) "http://good:8080"
                 Fixture.world0)
  = {| Proxy := "http://good:8080"; IsWorking := true; IP := "203.0.113.7";
       Error := ""; Duration := 42 |}.
Proof. reflexivity. Qed.

Example probe_forbidden :
  fst (testProxy Fixture.platform (Fixture.tester 10) "http://forbidden:8080"
                 Fixture.world0)
  = {| Proxy := "http://forbidden:8080"; IsWorking := false; IP := "";
       Error := "HTTP 403"; Duration := 40 |}.
Proof. reflexivity. Qed.

Example probe_chatty :
  fst (testProxy Fixture.platform (Fixture.tester 10) "http://chatty:8080"
                 Fixture.world0)
  = {| Proxy := "http://chatty:8080"; IsWorking := false; IP := "";
       Error := "Invalid IP response"; Duration := 42 |}.
Proof. reflexivity. Qed.

Example probe_cut :
  fst (testProxy Fixture.platform (Fixture.tester 10) "http://cut:8080"
                 Fixture.world0)
  = {| Proxy := "http://cut:8080"; IsWorking := false; IP := "";
       Error := "Failed to read response: unexpected EOF"; Duration := 47 |}.
Proof. reflexivity. Qed.

Example probe_bad_test_url :
  fst (testProxy Fixture.platform
                 {| timeout := 15 * Second; maxWorkers := 10;
                    testURL := "http://%ifconfig" |}
                 "http://good:8080" Fixture.world0)
  = {| Proxy := "http://good:8080"; IsWorking := false; IP := "";
       Error := "Failed to create request: invalid URL escape";
       Duration := 0 |}.
Proof. reflexivity. Qed.

Example probe_invalid_url_no_network :
  snd (testProxy Fixture.platform (Fixture.tester 10) "http://%zz"
                 Fixture.world0)
  = Fixture.world0.
Proof. reflexivity. Qed.

Example pool_three_by_two :
  TestProxies_rr Fixture.platform (Fixture.tester 2) Fixture.three_proxies 20
    Fixture.world0
  = Some [ {| Proxy := "http://good:8080"; IsWorking := true;
              IP := "203.0.113.7"; Error := ""; Duration := 42 |};
           {| Proxy := "http://%zz"; IsWorking := false; IP := "";
              Error := "Invalid proxy URL: invalid URL escape";
              Duration := 0 |};
           {| Proxy := "http://down:1"; IsWorking := false; IP := "";
              Error := "Request failed: proxyconnect tcp: connection refused";
              Duration := 3 |} ].
Proof. vm_compute. reflexivity. Qed.

Example pool_three_by_one :
  TestProxies_rr Fixture.platform (Fixture.tester 1) Fixture.three_proxies 20
    Fixture.world0
  = Some (fst (probe_all Fixture.platform (Fixture.tester 1)
                 Fixture.three_proxies Fixture.world0)).
Proof. vm_compute. reflexivity. Qed.

Example pool_three_by_none :
  TestProxies_rr Fixture.platform (Fixture.tester 0) Fixture.three_proxies 20
    Fixture.world0
  = Some [].
Proof. vm_compute. reflexivity. Qed.

Example pool_three_by_minus_one :
  TestProxies_rr Fixture.platform (Fixture.tester (-1)) Fixture.three_proxies
    20 Fixture.world0
  = Some [].
Proof. vm_compute. reflexivity. Qed.

(** ** The probe *)

Ltac run_probe :=
  unfold testProxy, http_NewRequestWithContext, bind, ret, time_Now, time_Since,
    context_WithTimeout, client_Do, io_ReadAll;
  cbn [fst snd].

Section ProbeFacts.

Variable P : Platform.
Variable pt : ProxyTester.

Lemma time_Sub_diag (t : Z) : time_Sub t t = 0%Z.
Proof. unfold time_Sub, int_min, int_max. lia. Qed.

(** The result of a probe names the address that was probed. *)
Lemma testProxy_Proxy (proxyURL : string) (w : World) :
  Proxy (fst (testProxy P pt proxyURL w)) = proxyURL.
Proof. run_probe. repeat case_match; reflexivity. Qed.

(** What the probe does once it has received a response. *)
Lemma testProxy_receives (proxyURL : string) (w : World) (resp : Response) :
  receives P pt proxyURL w resp ->
  exists parsedProxy target,
    let c := probe_client pt parsedProxy in
    let req := probe_request pt target w in
    let w1 := {| now := now w + latency (RoundTrip P w c req);
                 net := net w ++ [NetRoundTrip c req] |} in
    let w2 := {| now := now w1 + body_latency (ResponseBody resp);
                 net := net w1 ++ [NetReadBody (ResponseBody resp)] |} in
    let failed e w' :=
      ({| Proxy := proxyURL; IsWorking := false; IP := ""; Error := e;
          Duration := time_Sub (now w') (now w) |}, w') in
    testProxy P pt proxyURL w =
      if negb (StatusCode resp =? StatusOK)%Z
      then failed ("HTTP " ++ fmt_d (StatusCode resp)) w1
      else match body_read (ResponseBody resp) with
           | Err err => failed ("Failed to read response: " ++ err) w2
           | Ok body =>
               match net_ParseIP P (strings_TrimSpace P body) with
               | None => failed "Invalid IP response" w2
               | Some _ =>
                   ({| Proxy := proxyURL; IsWorking := true;
                       IP := strings_TrimSpace P body; Error := "";
                       Duration := time_Sub (now w2) (now w) |}, w2)
               end
           end.
Proof.
  intros (parsedProxy & target & Hp & Ht & Hr).
  exists parsedProxy, target. cbv zeta.
  unfold probe_client, probe_request in *.
  run_probe. rewrite Hp, Ht. cbn [fst snd]. rewrite Hr.
  repeat case_match; reflexivity.
Qed.

(** C2. In every result of a probe the IP is set only when the proxy works and
    the error only when it does not; the two are never both set.  Indeed a
    working result has no error, and a failed one has an error and no IP. *)
Theorem testProxy_ip_error_exclusive (proxyURL : string) (w : World) :
  let r := fst (testProxy P pt proxyURL w) in
  (IP r <> "" -> IsWorking r = true) /\
  (Error r <> "" -> IsWorking r = false) /\
  ~ (IP r <> "" /\ Error r <> "") /\
  (IsWorking r = true -> Error r = "") /\
  (IsWorking r = false -> IP r = "" /\ Error r <> "").
Proof.
  cbv zeta. run_probe.
  repeat case_match; cbn; repeat split; intros; try congruence; tauto.
Qed.

(** C3. When the proxy address does not parse as a URL, the probe reports a
    failure that says so, with the parser's message, sets no IP, and performs
    no network operation: the log of the world is unchanged. *)
Theorem testProxy_invalid_url (proxyURL err : string) (w : World) :
  url_Parse P proxyURL = Err err ->
  let r := fst (testProxy P pt proxyURL w) in
  let w' := snd (testProxy P pt proxyURL w) in
  Proxy r = proxyURL /\
  IsWorking r = false /\
  IP r = "" /\
  Error r = "Invalid proxy URL: " ++ err /\
  net w' = net w.
Proof.
  intros Hp. cbv zeta. run_probe. rewrite Hp. cbn. auto.
Qed.

(** C4, amended. A received response is rejected on its status exactly when
    the status is not 200; a response with status 200 goes on to the reading
    of its body, which the world records after the round trip. *)
Theorem testProxy_status (proxyURL : string) (w : World) (resp : Response) :
  receives P pt proxyURL w resp ->
  let r := fst (testProxy P pt proxyURL w) in
  let w' := snd (testProxy P pt proxyURL w) in
  (rejected_on_status r resp <-> StatusCode resp <> 200%Z) /\
  (StatusCode resp = 200%Z ->
   exists c req,
     net w' = (net w ++ [NetRoundTrip c req;
                         NetReadBody (ResponseBody resp)])%list).
Proof.
  intros Hrecv. destruct (testProxy_receives proxyURL w resp Hrecv)
    as (parsedProxy & target & Heq).
  cbv zeta in *. rewrite Heq. clear Heq. unfold rejected_on_status, StatusOK.
  destruct (Z.eqb_spec (StatusCode resp) 200) as [Hs | Hs]; cbn [negb].
  - split.
    + rewrite Hs. change (fmt_d 200) with "200".
      split; [| tauto]. intros [Hw He]. exfalso.
      repeat case_match; cbn in *; try discriminate.
    + intros _. eexists _, _.
      repeat case_match; cbn; rewrite <- app_assoc; reflexivity.
  - cbn. split; [tauto | congruence].
Qed.

(** C5, amended. A response with status 200 and a readable body yields a
    working result whose IP is the trimmed body when [net.ParseIP] accepts the
    trimmed body, and otherwise a failure whose error is
    ["Invalid IP response"]. *)
Theorem testProxy_payload (proxyURL : string) (w : World) (resp : Response)
  (body : string) :
  receives P pt proxyURL w resp ->
  StatusCode resp = 200%Z ->
  body_read (ResponseBody resp) = Ok body ->
  let r := fst (testProxy P pt proxyURL w) in
  let ip := strings_TrimSpace P body in
  match net_ParseIP P ip with
  | Some _ => IsWorking r = true /\ IP r = ip /\ Error r = ""
  | None => IsWorking r = false /\ Error r = "Invalid IP response" /\ IP r = ""
  end.
Proof.
  intros Hrecv Hs Hb. destruct (testProxy_receives proxyURL w resp Hrecv)
    as (parsedProxy & target & Heq).
  cbv zeta in *. rewrite Heq. clear Heq. rewrite Hs, Hb.
  change (200 =? StatusOK)%Z with true. cbn [negb].
  destruct (net_ParseIP P (strings_TrimSpace P body)); cbn; auto.
Qed.


End ProbeFacts.

(** ** The worker pool *)

Local Close Scope string_scope.

Lemma lookup_split {A : Type} (l : list A) (k : nat) (x : A) :
  l !! k = Some x ->
  exists l1 l2, l = l1 ++ x :: l2 /\ forall y, <[k:=y]> l = l1 ++ y :: l2.
Proof.
  intros H. apply list_elem_of_split_length in H as (l1 & l2 & -> & ->).
  exists l1, l2. split; [reflexivity |]. intros y.
  rewrite insert_app_r_alt by lia. rewrite Nat.sub_diag. reflexivity.
Qed.

Section PoolFacts.
Variable P : Platform.
Variable pt : ProxyTester.
Variable proxies : list string.

Ltac unfold_ops :=
  unfold chan_send, chan_recv, chan_close, wg_Add, wg_Wait, step_map in *.

Ltac pool_simpl :=
  unfold set_main, set_worker, add_worker, set_closer, set_jobs, set_results,
    set_wg, set_probe in *;
  cbn [main workers closer jobs results wg world probed buf cap closed fst snd]
    in *.

(** Case analysis on the statement that a step runs, on a pool whose fields
    have been named. *)
Ltac exec_cases H :=
  let k := fresh "k" in
  match type of H with
  | exec _ _ _ ?t _ = _ => destruct t as [| k |]
  end;
  cbn [exec] in H;
  [ unfold exec_main in H | unfold exec_worker in H | unfold exec_closer in H ];
  unfold_ops; pool_simpl;
  repeat (case_match; try discriminate);
  simplify_eq; pool_simpl; simplify_eq;
  try match goal with
      | Hl : _ !! _ = Some _ |- _ =>
          let l1 := fresh "l1" in
          let l2 := fresh "l2" in
          let Hins := fresh "Hins" in
          apply lookup_split in Hl as (l1 & l2 & -> & Hins);
          rewrite ?Hins; clear Hins
      end.

Ltac step_cases H :=
  let t := fresh "t" in
  destruct H as [t H]; exec_cases H.

(** Every step lowers the weight: the pool cannot run for ever. *)
Lemma step_weight (s s' : Pool) :
  Inv pt proxies s -> step P pt proxies s s' ->
  (weight pt proxies s' < weight pt proxies s)%nat.
Proof.
  intros HI H. destruct HI as [_ _ _ _ _ _ Hph _].
  destruct s as [m ws c j r g wd pr].
  step_cases H; unfold phase_ok in Hph; unfold weight; pool_simpl;
    rewrite ?sum_list_with_app, ?length_app;
    cbn [weight_main weight_worker weight_closer sum_list_with length];
    repeat match goal with H : buf _ = _ |- _ => rewrite H end;
    cbn [length]; lia.
Qed.

Lemma testProxy_Proxy_eq (proxy : string) (w w' : World) (r : ProxyResult) :
  testProxy P pt proxy w = (r, w') -> Proxy r = proxy.
Proof. intros H. rewrite <- (testProxy_Proxy P pt proxy w), H. reflexivity. Qed.

Lemma Inv_init (w : World) : Inv pt proxies (init proxies w).
Proof.
  constructor; unfold wg_ok, quit_ok, phase_ok, closer_ok, produced, pending;
    cbn; auto.
  repeat split; auto with zarith.
Qed.

Ltac items_simpl :=
  unfold produced, pending in *; pool_simpl;
  cbn [main_rest main_results] in *;
  repeat match goal with H : buf _ = _ |- _ => rewrite H in * end;
  rewrite ?flat_map_app, ?map_app in *;
  cbn [flat_map held_addr held_result map app] in *;
  rewrite ?map_app, ?app_nil_r in *;
  cbn [map app] in *.

(** Every step preserves the invariant. *)
Lemma step_Inv (s s' : Pool) :
  Inv pt proxies s -> step P pt proxies s s' -> Inv pt proxies s'.
Proof.
  intros HI H. destruct HI as [Hcj Hcr Hit Hpr Hwg Hq Hph Hcl].
  destruct s as [m ws c j r g wd pr].
  step_cases H; constructor; pool_simpl; try assumption.
  all: try match goal with
           | H : testProxy _ _ _ _ = _ |- _ => apply testProxy_Proxy_eq in H
           end.
  all: try (items_simpl; subst; (etrans; [| eassumption]); solve_Permutation).
  all: try (items_simpl; subst; (etrans; [eassumption |]); solve_Permutation).
  all: unfold wg_ok, quit_ok, phase_ok, closer_ok in *; pool_simpl;
    rewrite ?sum_list_with_app, ?length_app, ?Forall_app, ?Forall_cons in *;
    cbn [alive quit sum_list_with length] in *.
  all: try (repeat case_match; simplify_eq;
            intuition (try congruence; try lia); fail).
  all: try (intuition idtac;
            try (eapply Forall_impl; [eassumption |]; cbn beta;
                 intros; intuition congruence); fail).
  all: try (intuition (try congruence); try apply Forall_nil;
            try (eapply Forall_impl; [eassumption |]; cbn beta;
                 intros; intuition congruence); fail).
  - split_and!; auto; discriminate.
  - items_simpl. subst. rewrite Hpr. solve_Permutation.
Qed.

Lemma alive_worker (ws : list WorkerPC) :
  (0 < sum_list_with alive ws)%nat ->
  exists k w, ws !! k = Some w /\ w <> WExit.
Proof.
  induction ws as [| w ws IH]; cbn; [lia |].
  destruct w; cbn;
    try (intros _; eexists 0%nat, _; split; [reflexivity | discriminate]).
  intros H. destruct (IH H) as (k & w' & Hk & Hw').
  exists (S k), w'. auto.
Qed.

Lemma items_length (s : Pool) :
  Inv pt proxies s ->
  (length (produced s) + length (pending proxies s) = length proxies)%nat.
Proof.
  intros HI. rewrite <- (Permutation_length (inv_items _ _ _ HI)).
  rewrite length_app, length_map. reflexivity.
Qed.

(** A worker that has a result to send finds room in [results]. *)
Lemma results_room (s : Pool) (k : nat) (result : ProxyResult) :
  Inv pt proxies s -> workers s !! k = Some (WSend result) ->
  (length (buf (results s)) < cap (results s))%nat.
Proof.
  intros HI Hk. pose proof (items_length s HI) as Hlen.
  rewrite (inv_cap_results _ _ _ HI).
  apply lookup_split in Hk as (l1 & l2 & Hws & _).
  unfold produced in Hlen. rewrite Hws, flat_map_app in Hlen.
  cbn [flat_map held_result] in Hlen. rewrite !length_app in Hlen.
  cbn [length app] in Hlen. lia.
Qed.

(** Main finds room in [jobs] for every address it sends. *)
Lemma jobs_room (s : Pool) (proxy : string) (rest : list string) :
  Inv pt proxies s -> main s = MSend (proxy :: rest) ->
  (length (buf (jobs s)) < cap (jobs s))%nat.
Proof.
  intros HI Hm. pose proof (items_length s HI) as Hlen.
  rewrite (inv_cap_jobs _ _ _ HI).
  unfold pending in Hlen. rewrite Hm in Hlen. cbn [main_rest] in Hlen.
  rewrite !length_app in Hlen. cbn [length] in Hlen. lia.
Qed.

Lemma Inv_no_panic (s : Pool) : Inv pt proxies s -> ~ panics P pt proxies s.
Proof.
  intros HI (t & msg & H).
  pose proof (results_room s) as Hroom. specialize (Hroom) with (1 := HI).
  destruct HI as [Hcj Hcr Hit Hpr Hwg Hq Hph Hcl].
  destruct s as [m ws c j r g wd pr].
  exec_cases H; unfold wg_ok, quit_ok, phase_ok, closer_ok in *; pool_simpl;
    rewrite ?sum_list_with_app in *; cbn [alive sum_list_with] in *;
    repeat case_match; simplify_eq; intuition (try congruence; try lia).
Qed.

Ltac goal_cases :=
  repeat match goal with
         | |- context [if ?b then _ else _] => destruct b eqn:?
         end.

Ltac run_exec :=
  cbn [exec]; unfold exec_main, exec_worker, exec_closer;
  unfold_ops; pool_simpl.

(** Some goroutine can run as long as [TestProxies] has not returned. *)
Lemma Inv_progress (s : Pool) :
  Inv pt proxies s -> returned s = None -> exists s', step P pt proxies s s'.
Proof.
  intros HI Hret.
  pose proof (results_room s) as Hroom. specialize (Hroom) with (1 := HI).
  pose proof (jobs_room s) as Hjroom. specialize (Hjroom) with (1 := HI).
  destruct HI as [Hcj Hcr Hit Hpr Hwg Hq Hph Hcl].
  destruct s as [m ws c j r g wd pr].
  unfold returned, wg_ok, quit_ok, phase_ok, closer_ok in *; pool_simpl.
  destruct m as [i | i | [| proxy rest] | | | allResults | allResults];
    try discriminate.
  - (* the loop test *)
    destruct (i <? maxWorkers pt) eqn:Hi.
    + eexists. exists TMain. run_exec. rewrite Hi.
      goal_cases; try lia. reflexivity.
    + eexists. exists TMain. run_exec. rewrite Hi. reflexivity.
  - eexists. exists TMain. run_exec. reflexivity.
  - eexists. exists TMain. run_exec. reflexivity.
  - specialize (Hjroom _ _ eq_refl). destruct Hph as (_ & Hc & _).
    eexists. exists TMain. run_exec. rewrite Hc.
    goal_cases; try lia. reflexivity.
  - destruct Hph as (_ & Hc & _).
    eexists. exists TMain. run_exec. rewrite Hc. reflexivity.
  - eexists. exists TMain. run_exec. reflexivity.
  - (* collecting *)
    destruct (buf r) as [| result b] eqn:Hb.
    2: { eexists. exists TMain. run_exec. rewrite Hb. reflexivity. }
    destruct (closed r) eqn:Hr.
    { eexists. exists TMain. run_exec. rewrite Hb, Hr. reflexivity. }
    destruct Hph as (Hlen & Hj & Hc).
    destruct c as [[| |] |]; try congruence.
    2: { eexists. exists TCloser. run_exec. rewrite Hr. reflexivity. }
    2: { destruct Hcl; congruence. }
    destruct (Z.eqb_spec g 0) as [Hg | Hg].
    { eexists. exists TCloser. run_exec. goal_cases; try lia. reflexivity. }
    destruct (alive_worker ws) as (k & w & Hk & Hw); [lia |].
    destruct w as [| proxy | result | |]; try congruence.
    + destruct (buf j) eqn:Hbj; eexists; exists (TWorker k); run_exec;
        rewrite Hk, Hbj, ?Hj; reflexivity.
    + destruct (testProxy P pt proxy wd) as [result w'] eqn:Ht.
      eexists. exists (TWorker k). run_exec. rewrite Hk, Ht. reflexivity.
    + specialize (Hroom _ _ Hk).
      eexists. exists (TWorker k). run_exec. rewrite Hk, Hr, Hb.
      cbn [length] in *. goal_cases; try lia. reflexivity.
    + assert (0 < sum_list_with alive ws)%nat.
      { apply lookup_split in Hk as (l1 & l2 & -> & _).
        rewrite sum_list_with_app. cbn. lia. }
      eexists. exists (TWorker k). run_exec. rewrite Hk.
      goal_cases; try lia. reflexivity.
Qed.

(** From a state that satisfies the invariant, and an invariant [J] of the
    steps taken from such states, [TestProxies] returns whatever the
    scheduler does, and both hold when it does. *)
Lemma must_return_Inv (J : Pool -> Prop) :
  (forall s s', Inv pt proxies s -> J s -> step P pt proxies s s' -> J s') ->
  forall s, Inv pt proxies s -> J s ->
  must_return P pt proxies (fun _ s' => Inv pt proxies s' /\ J s') s.
Proof.
  intros HJ s. remember (weight pt proxies s) as n eqn:Hn. revert s Hn.
  induction (lt_wf n) as [n _ IH]. intros s -> HI HJs.
  destruct (returned s) as [allResults |] eqn:Hret.
  - eapply mr_return; eauto.
  - apply mr_step; auto using Inv_no_panic, Inv_progress.
    intros s' Hstep. eapply IH; eauto using step_weight, step_Inv.
Qed.

Lemma must_return_mono (Q Q' : list ProxyResult -> Pool -> Prop) (s : Pool) :
  (forall allResults s', returned s' = Some allResults ->
                         Q allResults s' -> Q' allResults s') ->
  must_return P pt proxies Q s -> must_return P pt proxies Q' s.
Proof.
  intros HQ H. induction H as [s allResults Hret HQs | s Hret Hnp Hex _ IH].
  - eapply mr_return; eauto.
  - apply mr_step; auto.
Qed.

Lemma Inv_reachable (w : World) (s : Pool) :
  reachable P pt proxies w s -> Inv pt proxies s.
Proof.
  unfold reachable. intros H. apply rtc_nsteps in H as [n H].
  revert s H. induction n as [| n IH]; intros s H.
  - inversion H; subst. apply Inv_init.
  - apply nsteps_inv_r in H as (s1 & H1 & Hstep). eauto using step_Inv.
Qed.

(** No send of [TestProxies] ever finds its channel full. *)
Lemma send_never_blocks (w : World) (s : Pool) :
  reachable P pt proxies w s ->
  (forall proxy rest, main s = MSend (proxy :: rest) ->
                      exec P pt proxies TMain s <> Blocked) /\
  (forall k result, workers s !! k = Some (WSend result) ->
                    exec P pt proxies (TWorker k) s <> Blocked).
Proof.
  intros HI%Inv_reachable. split.
  - intros proxy rest Hm. pose proof (jobs_room s proxy rest HI Hm).
    run_exec. rewrite Hm. goal_cases; try discriminate. lia.
  - intros k result Hk. pose proof (results_room s k result HI Hk).
    run_exec. rewrite Hk. goal_cases; try discriminate. lia.
Qed.

Lemma all_exited (ws : list WorkerPC) :
  sum_list_with alive ws = 0%nat -> Forall (fun w => w = WExit) ws.
Proof.
  induction ws as [| w ws IH]; cbn; intros H; constructor.
  - destruct w; cbn in H; try lia. reflexivity.
  - apply IH. lia.
Qed.

Lemma exited_hold_nothing (ws : list WorkerPC) :
  Forall (fun w => w = WExit) ws ->
  flat_map held_addr ws = [] /\ flat_map held_result ws = [].
Proof.
  induction 1 as [| w ws -> _ [IH1 IH2]]; cbn; auto.
Qed.

(** When [TestProxies] returns, every worker has exited and [results] is
    drained: what was produced is what is returned. *)
Lemma Inv_returned (s : Pool) (allResults : list ProxyResult) :
  Inv pt proxies s -> returned s = Some allResults ->
  produced s = allResults /\
  flat_map held_addr (workers s) = [] /\
  Forall (fun w => w = WExit) (workers s) /\
  length (workers s) = Z.to_nat (maxWorkers pt).
Proof.
  intros [Hcj Hcr Hit Hpr Hwg Hq Hph Hcl] Hret.
  destruct s as [m ws c j r g wd pr].
  unfold returned, wg_ok, quit_ok, phase_ok, closer_ok, produced in *.
  pool_simpl. destruct m; try discriminate. simplify_eq.
  destruct Hph as (Hlen & Hj & -> & Hb). destruct Hcl as [Hr Hg].
  assert (Hex : Forall (fun w => w = WExit) ws) by (apply all_exited; lia).
  destruct (exited_hold_nothing ws Hex) as [Ha Hres].
  cbn [main_results]. rewrite Hb, Hres, app_nil_r. auto.
Qed.

(** The world has seen the probes of the log, in the order of the log, and
    nothing else. *)
Lemma world_after_step (w : World) (s s' : Pool) :
  Inv pt proxies s -> world s = world_after P pt (probed s) w ->
  step P pt proxies s s' ->
  world s' = world_after P pt (probed s') w.
Proof.
  intros _ HJ H. destruct s as [m ws c j r g wd pr].
  step_cases H; pool_simpl; subst; try reflexivity.
  unfold world_after in *. rewrite fold_left_app. cbn [fold_left].
  match goal with H : testProxy _ _ _ _ = _ |- _ => rewrite H end.
  reflexivity.
Qed.

(** With at least one worker, nothing is pending when [TestProxies]
    returns. *)
Lemma Inv_returned_pending (s : Pool) (allResults : list ProxyResult) :
  (1 <= maxWorkers pt)%Z ->
  Inv pt proxies s -> returned s = Some allResults -> pending proxies s = [].
Proof.
  intros Hn HI Hret.
  destruct (Inv_returned s allResults HI Hret) as (Hprod & Hheld & Hex & Hlen).
  pose proof (inv_quit _ _ _ HI) as Hq. unfold quit_ok in Hq.
  unfold pending. rewrite Hheld. unfold returned in Hret.
  destruct (main s); try discriminate. cbn [main_rest app].
  destruct (workers s) as [| w0 ws]; [cbn in Hlen; lia |].
  apply Forall_cons in Hex as [-> _]. apply Forall_cons in Hq as [Hq _].
  destruct (Hq eq_refl) as [_ ->]. reflexivity.
Qed.

(** C1. With at least one worker, [TestProxies] returns under every schedule,
    without panic or deadlock, and returns exactly one result per input
    address: as many results as addresses, whose [Proxy] fields are the input
    addresses up to order; and [testProxy] was called exactly once per
    address.  For an empty input the result is empty and the world is
    untouched. *)
Theorem TestProxies_one_result_each (w : World) :
  (1 <= maxWorkers pt)%Z ->
  must_return P pt proxies
    (fun allResults s =>
       length allResults = length proxies /\
       Permutation (map Proxy allResults) proxies /\
       Permutation (probed s) proxies /\
       world s = world_after P pt (probed s) w /\
       (proxies = [] -> allResults = [] /\ probed s = [] /\ world s = w))
    (init proxies w).
Proof.
  intros Hn.
  eapply must_return_mono;
    [| apply (must_return_Inv
                (fun s => world s = world_after P pt (probed s) w));
       [eauto using world_after_step | apply Inv_init | reflexivity]].
  cbn beta. intros allResults s Hret [HI HJ].
  destruct (Inv_returned s allResults HI Hret) as (Hprod & Hheld & Hex & Hlen).
  pose proof (inv_items _ _ _ HI) as Hit.
  pose proof (inv_probed _ _ _ HI) as Hpr.
  pose proof (Inv_returned_pending s allResults Hn HI Hret) as Hpend.
  rewrite Hprod, Hpend, app_nil_r in Hit. rewrite Hprod in Hpr.
  assert (Hlen' : length allResults = length proxies).
  { rewrite <- (Permutation_length Hit). apply eq_sym, length_map. }
  split_and!; auto.
  - etrans; eassumption.
  - intros ->. destruct allResults; [| discriminate].
    apply Permutation_nil_r in Hpr. rewrite Hpr in HJ. auto.
Qed.

(** C8. With a worker count of zero or less, [TestProxies] returns under
    every schedule, without panic or deadlock, an empty result: no worker is
    started, no address is probed, the world is untouched and the addresses
    stay in [jobs]. *)
Theorem TestProxies_no_workers (w : World) :
  (maxWorkers pt <= 0)%Z ->
  must_return P pt proxies
    (fun allResults s =>
       allResults = [] /\ workers s = [] /\ probed s = [] /\ world s = w /\
       Permutation (buf (jobs s)) proxies)
    (init proxies w).
Proof.
  intros Hn.
  eapply must_return_mono;
    [| apply (must_return_Inv
                (fun s => workers s = [] /\ probed s = [] /\ world s = w));
       [| apply Inv_init | auto]].
  - cbn beta. intros allResults s Hret (HI & Hws & Hpr & Hw).
    destruct (Inv_returned s allResults HI Hret) as (Hprod & _).
    pose proof (inv_items _ _ _ HI) as Hit.
    pose proof (inv_probed _ _ _ HI) as Hp.
    rewrite Hpr, Hprod in Hp. apply Permutation_nil in Hp.
    apply map_eq_nil in Hp.
    rewrite Hprod, Hp in Hit. unfold pending in Hit. rewrite Hws in Hit.
    unfold returned in Hret. destruct (main s); try discriminate.
    cbn [map flat_map main_rest app] in Hit. rewrite app_nil_r in Hit. auto.
  - intros s s' HI (Hws & Hpr & Hw) H.
    pose proof (inv_phase _ _ _ HI) as Hph. unfold phase_ok in Hph.
    destruct s as [m ws c j r g wd pr].
    step_cases H; pool_simpl; subst; auto; try lia;
      try (exfalso; eapply app_cons_not_nil; eauto; fail).
Qed.

Lemma probe_all_snoc (done : list string) (p : string) (w : World) :
  probe_all P pt (done ++ [p]) w
  = let (rs, w1) := probe_all P pt done w in
    let (r, w2) := testProxy P pt p w1 in
    (rs ++ [r], w2).
Proof.
  revert w. induction done as [| q done IH]; intros w; cbn [probe_all app].
  - unfold bind, ret. cbn. destruct (testProxy P pt p w). reflexivity.
  - unfold bind, ret. destruct (testProxy P pt q w) as [r0 w0].
    rewrite IH.
    destruct (probe_all P pt done w0) as [rs w1].
    destruct (testProxy P pt p w1) as [r w2]. reflexivity.
Qed.

Lemma in_order_step (w : World) (s s' : Pool) :
  maxWorkers pt = 1%Z ->
  Inv pt proxies s -> in_order P pt proxies w s -> step P pt proxies s s' ->
  in_order P pt proxies w s'.
Proof.
  intros Hn HI (done & Hsplit & Hrun) H.
  pose proof (inv_phase _ _ _ HI) as Hph. unfold phase_ok in Hph.
  destruct s as [m ws c j r g wd pr]. pool_simpl.
  assert (Hlen : (length ws <= 1)%nat) by (destruct m; lia).
  clear Hph HI. unfold in_order.
  step_cases H;
    try match goal with
        | H : (length (?l1 ++ _ :: ?l2) <= 1)%nat |- _ =>
            rewrite length_app in H; cbn [length] in H;
            destruct l1, l2; cbn [length] in H; try lia
        end;
    items_simpl.
  all: try (exists done; split; [rewrite <- ?app_assoc in *; assumption |];
            rewrite <- ?app_assoc in *; cbn [app] in *; assumption).
  exists (done ++ [proxy]). split.
  - rewrite <- app_assoc. assumption.
  - rewrite probe_all_snoc, Hrun.
    match goal with H : testProxy _ _ _ _ = _ |- _ => rewrite H end.
    rewrite <- !app_assoc. reflexivity.
Qed.

(** With one worker the pool is sequential: under every schedule it returns
    the results of probing the addresses one after the other, in input order,
    and leaves the world that the sequential probes leave. *)
Lemma TestProxies_sequential (w : World) :
  maxWorkers pt = 1%Z ->
  must_return P pt proxies
    (fun allResults s => probe_all P pt proxies w = (allResults, world s))
    (init proxies w).
Proof.
  intros Hn.
  eapply must_return_mono;
    [| apply (must_return_Inv (in_order P pt proxies w));
       [eauto using in_order_step | apply Inv_init |]].
  - cbn beta. intros allResults s Hret (HI & done & Hsplit & Hrun).
    destruct (Inv_returned s allResults HI Hret) as (Hprod & _).
    rewrite (Inv_returned_pending s allResults) in Hsplit by (auto; lia).
    rewrite app_nil_r in Hsplit. subst done. rewrite Hrun, Hprod. reflexivity.
  - exists []. split; reflexivity.
Qed.

Lemma results_of_step (f : string -> ProxyResult) (s s' : Pool) :
  (forall p w, fst (testProxy P pt p w) = f p) ->
  Inv pt proxies s -> results_of f s -> step P pt proxies s s' ->
  results_of f s'.
Proof.
  intros Hf _ HJ H. unfold results_of in *.
  destruct s as [m ws c j r g wd pr].
  step_cases H; items_simpl;
    rewrite ?Forall_app, ?Forall_cons, ?Forall_app in *;
    try (intuition (auto using Forall_nil); fail).
  match goal with
  | H : testProxy _ _ ?p ?w = _ |- _ =>
      pose proof (Hf p w) as Hfp; pose proof (testProxy_Proxy P pt p w) as Hpp;
      rewrite H in Hfp, Hpp; cbn [fst] in Hfp, Hpp
  end.
  intuition congruence.
Qed.

Lemma results_of_map (f : string -> ProxyResult) (rs : list ProxyResult) :
  Forall (fun r => r = f (Proxy r)) rs -> rs = map f (map Proxy rs).
Proof.
  induction 1 as [| r rs Hr _ IH]; cbn; [reflexivity |].
  rewrite <- Hr, <- IH. reflexivity.
Qed.

Lemma probe_all_deterministic (f : string -> ProxyResult) (ps : list string)
  (w : World) :
  (forall p w, fst (testProxy P pt p w) = f p) ->
  fst (probe_all P pt ps w) = map f ps.
Proof.
  intros Hf. revert w. induction ps as [| p ps IH]; intros w; [reflexivity |].
  cbn [probe_all map]. unfold bind, ret.
  pose proof (Hf p w) as Hp. destruct (testProxy P pt p w) as [r w1].
  pose proof (IH w1) as Hps. destruct (probe_all P pt ps w1) as [rs w2].
  cbn [fst] in *. congruence.
Qed.

(** With a deterministic probe and at least one worker, the pool returns
    under every schedule the results of the sequential probes, up to order. *)
Lemma TestProxies_deterministic (w w0 : World) :
  deterministic P pt -> (1 <= maxWorkers pt)%Z ->
  must_return P pt proxies
    (fun allResults _ =>
       Permutation allResults (fst (probe_all P pt proxies w0)))
    (init proxies w).
Proof.
  intros Hdet Hn.
  set (f := fun p => fst (testProxy P pt p w0)).
  assert (Hf : forall p w1, fst (testProxy P pt p w1) = f p)
    by (intros p w1; apply Hdet).
  eapply must_return_mono;
    [| apply (must_return_Inv (results_of f));
       [eauto using results_of_step | apply Inv_init | constructor]].
  cbn beta. intros allResults s Hret [HI HJ].
  destruct (Inv_returned s allResults HI Hret) as (Hprod & _).
  pose proof (inv_items _ _ _ HI) as Hit.
  rewrite (Inv_returned_pending s allResults Hn HI Hret), app_nil_r, Hprod
    in Hit.
  unfold results_of in HJ. rewrite Hprod in HJ.
  rewrite (probe_all_deterministic f) by assumption.
  rewrite (results_of_map f allResults HJ). apply Permutation_map. assumption.
Qed.
(** *** The round-robin scheduler

    The executable [TestProxies_rr] is one of the schedules: with enough
    rounds it returns, with one result per address. *)

Lemma step_returned (s s' : Pool) (allResults : list ProxyResult) :
  returned s = Some allResults -> step P pt proxies s s' ->
  returned s' = Some allResults.
Proof.
  intros Hret H. destruct s as [m ws c j r g wd pr].
  unfold returned in *. pool_simpl.
  step_cases H; reflexivity.
Qed.

Lemma run_app (sched1 sched2 : list Tid) (s : Pool) :
  run P pt proxies (sched1 ++ sched2) s
  = match run P pt proxies sched1 s with
    | Next s1 => run P pt proxies sched2 s1
    | other => other
    end.
Proof.
  revert s. induction sched1 as [| t sched1 IH]; intros s; cbn [run app].
  - reflexivity.
  - destruct (exec P pt proxies t s); auto.
Qed.

(** A schedule runs steps of the pool and nothing else. *)
Lemma run_Inv (sched : list Tid) (s : Pool) :
  Inv pt proxies s ->
  exists s',
    run P pt proxies sched s = Next s' /\
    Inv pt proxies s' /\
    (weight pt proxies s' <= weight pt proxies s)%nat /\
    rtc (step P pt proxies) s s' /\
    (forall allResults, returned s = Some allResults ->
                        returned s' = Some allResults).
Proof.
  revert s. induction sched as [| t sched IH]; intros s HI; cbn [run].
  - exists s. split_and!; auto. reflexivity.
  - destruct (exec P pt proxies t s) as [s1 | | msg |] eqn:He.
    + assert (Hstep : step P pt proxies s s1) by (exists t; exact He).
      destruct (IH s1 (step_Inv s s1 HI Hstep))
        as (s' & Hrun & HI' & Hw & Hr & Hret).
      pose proof (step_weight s s1 HI Hstep).
      exists s'. split_and!; auto; [lia | eapply rtc_l; eauto |].
      eauto using step_returned.
    + apply IH, HI.
    + exfalso. apply (Inv_no_panic s HI). exists t, msg. exact He.
    + apply IH, HI.
Qed.

(** A schedule that names a goroutine that can run makes progress. *)
Lemma run_progress (sched : list Tid) (s s1 : Pool) (t : Tid) :
  Inv pt proxies s -> In t sched -> exec P pt proxies t s = Next s1 ->
  exists s',
    run P pt proxies sched s = Next s' /\
    (weight pt proxies s' < weight pt proxies s)%nat.
Proof.
  revert s s1. induction sched as [| t0 sched IH]; intros s s1 HI Hin He;
    [destruct Hin |]. cbn [run].
  destruct (exec P pt proxies t0 s) as [s2 | | msg |] eqn:He0.
  - assert (Hstep : step P pt proxies s s2) by (exists t0; exact He0).
    destruct (run_Inv sched s2 (step_Inv s s2 HI Hstep))
      as (s' & Hrun & _ & Hw & _).
    pose proof (step_weight s s2 HI Hstep).
    exists s'. split; [exact Hrun | lia].
  - destruct Hin as [-> | Hin]; [congruence | eauto].
  - exfalso. apply (Inv_no_panic s HI). exists t0, msg. exact He0.
  - destruct Hin as [-> | Hin]; [congruence | eauto].
Qed.

(** Every goroutine that can run has its turn in a round. *)
Lemma enabled_in_round (s s1 : Pool) (t : Tid) :
  Inv pt proxies s -> exec P pt proxies t s = Next s1 ->
  In t (round_robin (Z.to_nat (maxWorkers pt))).
Proof.
  intros HI He. unfold round_robin. destruct t as [| k |]; cbn; auto.
  right. right. apply in_map, in_seq.
  assert (Hk : is_Some (workers s !! k)).
  { cbn [exec] in He. unfold exec_worker in He.
    destruct (workers s !! k); [eauto | discriminate]. }
  apply lookup_lt_is_Some in Hk.
  pose proof (inv_phase _ _ _ HI) as Hph. unfold phase_ok in Hph.
  destruct (main s); lia.
Qed.

Lemma rr_returns (fuel : nat) (s : Pool) :
  Inv pt proxies s ->
  returned s <> None \/ (weight pt proxies s <= fuel)%nat ->
  exists s' allResults,
    run P pt proxies
        (concat (replicate fuel (round_robin (Z.to_nat (maxWorkers pt))))) s
    = Next s' /\
    returned s' = Some allResults /\ Inv pt proxies s'.
Proof.
  revert s. induction fuel as [| fuel IH]; intros s HI Hw.
  - cbn. exists s. destruct (returned s) as [allResults |] eqn:Hret; [eauto |].
    exfalso. destruct Hw as [Hw | Hw]; [congruence |].
    unfold returned in Hret. unfold weight in Hw.
    destruct (main s); cbn [weight_main] in Hw; try discriminate; lia.
  - cbn [replicate concat]. rewrite run_app.
    destruct (returned s) as [allResults |] eqn:Hret.
    + destruct (run_Inv (round_robin (Z.to_nat (maxWorkers pt))) s HI)
        as (s1 & -> & HI1 & _ & _ & Hret1).
      apply IH; [exact HI1 |]. left. rewrite (Hret1 _ Hret). discriminate.
    + destruct Hw as [Hw | Hw]; [congruence |].
      destruct (Inv_progress s HI Hret) as (s1 & t & He).
      destruct (run_progress _ s s1 t HI (enabled_in_round s s1 t HI He) He)
        as (s2 & Hrun & Hlt).
      destruct (run_Inv (round_robin (Z.to_nat (maxWorkers pt))) s HI)
        as (s2' & Hrun' & HI2 & _).
      rewrite Hrun in Hrun'. injection Hrun' as <-. rewrite Hrun.
      apply IH; [exact HI2 |]. right. lia.
Qed.

(** With at least one worker and enough rounds, the round-robin pool
    returns one result per address. *)
Lemma TestProxies_rr_returns (fuel : nat) (w : World) :
  (1 <= maxWorkers pt)%Z ->
  (5 * Z.to_nat (maxWorkers pt) + 5 * length proxies + 7 <= fuel)%nat ->
  exists allResults,
    TestProxies_rr P pt proxies fuel w = Some allResults /\
    Permutation (map Proxy allResults) proxies.
Proof.
  intros Hn Hfuel.
  destruct (rr_returns fuel (init proxies w) (Inv_init w))
    as (s & allResults & Hrun & Hret & HI).
  { right. unfold weight. cbn. rewrite Z.sub_0_r. lia. }
  exists allResults. unfold TestProxies_rr. rewrite Hrun. split; [exact Hret |].
  destruct (Inv_returned s allResults HI Hret) as (Hprod & _).
  pose proof (inv_items _ _ _ HI) as Hit.
  rewrite (Inv_returned_pending s allResults Hn HI Hret), app_nil_r, Hprod
    in Hit.
  exact Hit.
Qed.

End PoolFacts.

Lemma deterministic_with_workers (P : Platform) (pt : ProxyTester) (n : Z) :
  deterministic P pt -> deterministic P (with_workers n pt).
Proof. intros H p w w'. apply (H p w w'). Qed.

Lemma probe_all_with_workers (P : Platform) (pt : ProxyTester) (n : Z)
  (ps : list string) :
  probe_all P (with_workers n pt) ps = probe_all P pt ps.
Proof.
  induction ps as [| p ps IH]; cbn [probe_all]; [| rewrite IH]; reflexivity.
Qed.

(** C9. For a deterministic probe and the same input, the pool with one
    worker returns, under every schedule, exactly the results of probing the
    addresses sequentially in input order, and the pool with any number
    [n >= 1] of workers returns, under every schedule, the same results up to
    order. *)
Theorem TestProxies_worker_count_irrelevant (P : Platform) (pt : ProxyTester)
  (proxies : list string) (n : Z) (w w' : World) :
  deterministic P pt ->
  (1 <= n)%Z ->
  let sequential := fst (probe_all P pt proxies w) in
  must_return P (with_workers 1 pt) proxies
    (fun allResults _ => allResults = sequential) (init proxies w) /\
  must_return P (with_workers n pt) proxies
    (fun allResults _ => Permutation allResults sequential) (init proxies w').
Proof.
  intros Hdet Hn sequential. subst sequential. split.
  - eapply must_return_mono;
      [| apply (TestProxies_sequential P (with_workers 1 pt) proxies w);
         reflexivity].
    cbn beta. intros allResults s _ H.
    rewrite probe_all_with_workers in H. rewrite H. reflexivity.
  - eapply must_return_mono;
      [| apply (TestProxies_deterministic P (with_workers n pt) proxies w' w);
         [apply deterministic_with_workers; assumption | exact Hn]].
    cbn beta. intros allResults s _ H.
    rewrite probe_all_with_workers in H. exact H.
Qed.

Local Open Scope string_scope.

(** ** The loader *)

Section LoaderFacts.

Variable P : Platform.

Lemma has_scheme_with_scheme (line : string) :
  has_scheme (with_scheme line) = true.
Proof.
  unfold with_scheme. destruct (has_scheme line) eqn:H; [assumption |].
  destruct line; reflexivity.
Qed.

Lemma load_line_spec (proxies : list string) (text : string) :
  load_line P proxies text
  = (proxies
     ++ map with_scheme
          (List.filter keep_line [strings_TrimSpace P text]))%list.
Proof.
  unfold load_line, keep_line, with_scheme, has_scheme. cbn [List.filter].
  destruct (negb (strings_TrimSpace P text =? "")
            && negb (HasPrefix (strings_TrimSpace P text) "#"))%bool;
    cbn [map]; [| rewrite app_nil_r; reflexivity].
  destruct (HasPrefix (strings_TrimSpace P text) "http://"),
           (HasPrefix (strings_TrimSpace P text) "https://"),
           (HasPrefix (strings_TrimSpace P text) "socks5://"); reflexivity.
Qed.

Lemma fold_load_line (lines proxies : list string) :
  fold_left (load_line P) lines proxies
  = (proxies
     ++ map with_scheme
          (List.filter keep_line (map (strings_TrimSpace P) lines)))%list.
Proof.
  revert proxies. induction lines as [| text lines IH]; intros proxies.
  - cbn. rewrite app_nil_r. reflexivity.
  - cbn [fold_left map]. rewrite IH, load_line_spec.
    cbn [List.filter]. destruct (keep_line (strings_TrimSpace P text));
      cbn [map app]; rewrite <- ?app_assoc; reflexivity.
Qed.

(** C7. The loader trims every line, drops the lines that are then blank or
    begin with [#], prefixes [http://] to the remaining lines that start with
    none of [http://], [https://], [socks5://], keeps their order, and passes
    the error of the scanner on; so every address it returns starts with one
    of the three schemes. *)
Theorem loadProxiesFromReader_spec (lines : list string)
  (scan_err : option string) :
  let out := loadProxiesFromReader P lines scan_err in
  fst out = map with_scheme
              (List.filter keep_line (map (strings_TrimSpace P) lines)) /\
  Forall (fun proxy => has_scheme proxy = true) (fst out) /\
  snd out = scan_err.
Proof.
  cbv zeta. unfold loadProxiesFromReader. cbn [fst snd].
  rewrite fold_load_line. cbn [app]. split_and!; try reflexivity.
  apply List.Forall_forall. intros proxy Hin.
  apply in_map_iff in Hin as (l & <- & _).
  apply has_scheme_with_scheme.
Qed.

End LoaderFacts.

(** ** [truncateString] *)

Lemma length_append (s1 s2 : string) :
  String.length (s1 ++ s2) = (String.length s1 + String.length s2)%nat.
Proof. induction s1 as [| c s1 IH]; cbn; [| rewrite IH]; reflexivity. Qed.

Lemma length_substring_0 (n : nat) (s : string) :
  (n <= String.length s)%nat -> String.length (substring 0 n s) = n.
Proof.
  revert s. induction n as [| n IH]; intros s Hn.
  - destruct s; reflexivity.
  - destruct s as [| c s]; cbn in *; [lia |]. rewrite IH by lia. reflexivity.
Qed.

(** C10. For a [maxLen] of at least 3, [truncateString] does not panic: it
    returns [s] itself when [s] is no longer than [maxLen], and otherwise the
    first [maxLen - 3] bytes of [s] followed by ["..."], a string of length
    exactly [maxLen].  For a [maxLen] below 3 and a longer [s] the bound of
    the slice is negative and the function panics. *)
Theorem truncateString_spec (s : string) (maxLen : Z) :
  (int_min + 3 <= maxLen <= int_max)%Z ->
  ((3 <= maxLen)%Z ->
   ((len s <= maxLen)%Z -> truncateString s maxLen = Some s) /\
   ((maxLen < len s)%Z ->
    exists r, truncateString s maxLen = Some r /\
              len r = maxLen /\
              r = substring 0 (Z.to_nat (maxLen - 3)) s ++ "...")) /\
  ((maxLen < 3)%Z -> (maxLen < len s)%Z ->
   (wrap64 (maxLen - 3) < 0)%Z /\ truncateString s maxLen = None).
Proof.
  intros Hrange.
  assert (Hwrap : wrap64 (maxLen - 3) = (maxLen - 3)%Z).
  { unfold wrap64, int_min, int_max in *.
    rewrite Z.mod_small by lia. lia. }
  unfold truncateString, slice_to. rewrite Hwrap.
  split; [intros H3; split |].
  - intros Hle. destruct (Z.leb_spec (len s) maxLen); [reflexivity | lia].
  - intros Hlt. destruct (Z.leb_spec (len s) maxLen); [lia |].
    destruct (Z.ltb_spec (maxLen - 3) 0); [lia |].
    destruct (Z.ltb_spec (len s) (maxLen - 3)); [lia |]. cbn [orb].
    eexists. split; [reflexivity |]. split; [| reflexivity].
    unfold len in *. rewrite length_append, length_substring_0 by lia.
    cbn [String.length]. lia.
  - intros H3 Hlt. split; [lia |].
    destruct (Z.leb_spec (len s) maxLen); [lia |].
    destruct (Z.ltb_spec (maxLen - 3) 0); [reflexivity | lia].
Qed.

(** ** Concrete inputs *)

Example truncate_long :
  truncateString "http://a-long-proxy-host.example:8080" 20
  = Some "http://a-long-pro...".
Proof. reflexivity. Qed.

Example truncate_panics : truncateString "abc" 2 = None.
Proof. reflexivity. Qed.

Example load_lines :
  loadProxiesFromReader Fixture.platform
    ["  10.0.0.1:3128 "; "# a comment"; ""; "socks5://10.0.0.2:1080";
     "HTTPS://10.0.0.3"] None
  = (["http://10.0.0.1:3128"; "socks5://10.0.0.2:1080";
      "http://HTTPS://10.0.0.3"], None).
Proof. reflexivity. Qed.

(** C4 as stated fails: a response with status 204 is in the 2xx range and
    is rejected on its status all the same. *)
Lemma status_2xx_counterexample :
  ~ (forall (P : Platform) (pt : ProxyTester) (proxyURL : string) (w : World)
            (resp : Response),
        receives P pt proxyURL w resp ->
        (rejected_on_status (fst (testProxy P pt proxyURL w)) resp
         <-> ~ (200 <= StatusCode resp <= 299)%Z)).
Proof.
  intros H.
  assert (Hrecv : receives Fixture.platform (Fixture.tester 10)
                    "http://nocontent:8080" Fixture.world0 Fixture.no_content)
    by (eexists _, _; split_and!; reflexivity).
  destruct (H _ _ _ _ _ Hrecv) as [Hrej _].
  apply Hrej; [split; reflexivity | cbn; lia].
Qed.

(** C5 as stated fails: the error of a body that is no IP address is
    ["Invalid IP response"], with a capital. *)
Lemma payload_error_counterexample :
  ~ (forall (P : Platform) (pt : ProxyTester) (proxyURL : string) (w : World)
            (resp : Response) (body : string),
        receives P pt proxyURL w resp ->
        StatusCode resp = 200%Z ->
        body_read (ResponseBody resp) = Ok body ->
        let r := fst (testProxy P pt proxyURL w) in
        let ip := strings_TrimSpace P body in
        match net_ParseIP P ip with
        | Some _ => IsWorking r = true /\ IP r = ip
        | None => IsWorking r = false /\ Error r = "invalid IP response"
        end).
Proof.
  intros H.
  assert (Hrecv : receives Fixture.platform (Fixture.tester 10)
                    "http://chatty:8080" Fixture.world0 Fixture.chatty)
    by (eexists _, _; split_and!; reflexivity).
  destruct (H _ _ _ _ _ "hello" Hrecv eq_refl eq_refl) as [_ He].
  discriminate He.
Qed.

(** The probe over the fixture is deterministic: the canned network looks at
    the proxy only. *)
Lemma Fixture_deterministic (pt : ProxyTester) :
  deterministic Fixture.platform pt.
Proof.
  intros proxyURL w w'. run_probe. cbn [url_Parse Fixture.platform].
  destruct (Fixture.Parse proxyURL) as [u | e];
    [| cbn; rewrite !time_Sub_diag; reflexivity].
  destruct (Fixture.Parse (testURL pt)) as [t | e];
    [| cbn; rewrite !time_Sub_diag; reflexivity].
  cbn [RoundTrip Fixture.platform net_ParseIP strings_TrimSpace fst snd].
  unfold Fixture.transport. cbn [ClientTransport TransportProxy].
  assert (Hsub : forall d1 d2 : Z,
             time_Sub (now w + d1 + d2) (now w)
             = time_Sub (now w' + d1 + d2) (now w')).
  { intros. unfold time_Sub. f_equal. f_equal. lia. }
  assert (Hsub1 : forall d1 : Z,
             time_Sub (now w + d1) (now w) = time_Sub (now w' + d1) (now w')).
  { intros. unfold time_Sub. f_equal. f_equal. lia. }
  repeat case_match; simplify_eq; cbn in *; simplify_eq;
    rewrite ?Hsub, ?Hsub1; try reflexivity.
Qed.

(** C1 on three addresses and two workers. *)
Lemma TestProxies_one_result_each_witness :
  (1 <= maxWorkers (Fixture.tester 2))%Z /\
  must_return Fixture.platform (Fixture.tester 2) Fixture.three_proxies
    (fun allResults s =>
       length allResults = length Fixture.three_proxies /\
       Permutation (map Proxy allResults) Fixture.three_proxies /\
       Permutation (probed s) Fixture.three_proxies /\
       world s = world_after Fixture.platform (Fixture.tester 2) (probed s)
                   Fixture.world0 /\
       (Fixture.three_proxies = [] ->
        allResults = [] /\ probed s = [] /\ world s = Fixture.world0))
    (init Fixture.three_proxies Fixture.world0).
Proof.
  split; [cbn; lia |].
  apply (TestProxies_one_result_each Fixture.platform (Fixture.tester 2)
           Fixture.three_proxies Fixture.world0).
  cbn. lia.
Defined.

(** C3 on an address with a broken escape. *)
Lemma testProxy_invalid_url_witness :
  url_Parse Fixture.platform "http://%zz" = Err "invalid URL escape" /\
  let r := fst (testProxy Fixture.platform (Fixture.tester 10) "http://%zz"
                  Fixture.world0) in
  let w' := snd (testProxy Fixture.platform (Fixture.tester 10) "http://%zz"
                   Fixture.world0) in
  Proxy r = "http://%zz" /\
  IsWorking r = false /\
  IP r = "" /\
  Error r = "Invalid proxy URL: " ++ "invalid URL escape" /\
  net w' = net Fixture.world0.
Proof.
  split; [reflexivity |].
  apply (testProxy_invalid_url Fixture.platform (Fixture.tester 10)
           "http://%zz" "invalid URL escape" Fixture.world0).
  reflexivity.
Defined.

(** C4, amended, on a proxy that answers 403. *)
Lemma testProxy_status_witness :
  receives Fixture.platform (Fixture.tester 10) "http://forbidden:8080"
    Fixture.world0 Fixture.forbidden /\
  let r := fst (testProxy Fixture.platform (Fixture.tester 10)
                  "http://forbidden:8080" Fixture.world0) in
  let w' := snd (testProxy Fixture.platform (Fixture.tester 10)
                   "http://forbidden:8080" Fixture.world0) in
  (rejected_on_status r Fixture.forbidden
   <-> StatusCode Fixture.forbidden <> 200%Z) /\
  (StatusCode Fixture.forbidden = 200%Z ->
   exists c req,
     net w' = (net Fixture.world0
               ++ [NetRoundTrip c req;
                   NetReadBody (ResponseBody Fixture.forbidden)])%list).
Proof.
  assert (Hrecv : receives Fixture.platform (Fixture.tester 10)
                    "http://forbidden:8080" Fixture.world0 Fixture.forbidden)
    by (eexists _, _; split_and!; reflexivity).
  split; [exact Hrecv |].
  apply (testProxy_status Fixture.platform (Fixture.tester 10)
           "http://forbidden:8080" Fixture.world0 Fixture.forbidden Hrecv).
Defined.

(** C5, amended, on a proxy that answers with an address. *)
Lemma testProxy_payload_witness :
  receives Fixture.platform (Fixture.tester 10) "http://good:8080"
    Fixture.world0 Fixture.good /\
  StatusCode Fixture.good = 200%Z /\
  body_read (ResponseBody Fixture.good) = Ok (" 203.0.113.7" ++ Fixture.LF) /\
  let r := fst (testProxy Fixture.platform (Fixture.tester 10)
                  "http://good:8080" Fixture.world0) in
  let ip := strings_TrimSpace Fixture.platform (" 203.0.113.7" ++ Fixture.LF) in
  match net_ParseIP Fixture.platform ip with
  | Some _ => IsWorking r = true /\ IP r = ip /\ Error r = ""
  | None => IsWorking r = false /\ Error r = "Invalid IP response" /\ IP r = ""
  end.
Proof.
  assert (Hrecv : receives Fixture.platform (Fixture.tester 10)
                    "http://good:8080" Fixture.world0 Fixture.good)
    by (eexists _, _; split_and!; reflexivity).
  split_and!; [exact Hrecv | reflexivity | reflexivity |].
  apply (testProxy_payload Fixture.platform (Fixture.tester 10)
           "http://good:8080" Fixture.world0 Fixture.good
           (" 203.0.113.7" ++ Fixture.LF) Hrecv);
    reflexivity.
Defined.

(** C8 on three addresses and no worker. *)
Lemma TestProxies_no_workers_witness :
  (maxWorkers (Fixture.tester 0) <= 0)%Z /\
  must_return Fixture.platform (Fixture.tester 0) Fixture.three_proxies
    (fun allResults s =>
       allResults = [] /\ workers s = [] /\ probed s = [] /\
       world s = Fixture.world0 /\
       Permutation (buf (jobs s)) Fixture.three_proxies)
    (init Fixture.three_proxies Fixture.world0).
Proof.
  split; [cbn; lia |].
  apply (TestProxies_no_workers Fixture.platform (Fixture.tester 0)
           Fixture.three_proxies Fixture.world0).
  cbn. lia.
Defined.

(** C9 on three addresses: one worker against three. *)
Lemma TestProxies_worker_count_irrelevant_witness :
  deterministic Fixture.platform (Fixture.tester 10) /\
  (1 <= 3)%Z /\
  let sequential :=
    fst (probe_all Fixture.platform (Fixture.tester 10) Fixture.three_proxies
           Fixture.world0) in
  must_return Fixture.platform (with_workers 1 (Fixture.tester 10))
    Fixture.three_proxies
    (fun allResults _ => allResults = sequential)
    (init Fixture.three_proxies Fixture.world0) /\
  must_return Fixture.platform (with_workers 3 (Fixture.tester 10))
    Fixture.three_proxies
    (fun allResults _ => Permutation allResults sequential)
    (init Fixture.three_proxies Fixture.world0).
Proof.
  split; [apply Fixture_deterministic |]. split; [lia |].
  apply (TestProxies_worker_count_irrelevant Fixture.platform
           (Fixture.tester 10) Fixture.three_proxies 3 Fixture.world0
           Fixture.world0).
  - apply Fixture_deterministic.
  - lia.
Defined.

(** C10 on a long address and the width 20. *)
Lemma truncateString_spec_witness :
  (int_min + 3 <= 20 <= int_max)%Z /\
  (((3 <= 20)%Z ->
    ((len "http://a-long-proxy-host.example:8080" <= 20)%Z ->
     truncateString "http://a-long-proxy-host.example:8080" 20
     = Some "http://a-long-proxy-host.example:8080") /\
    ((20 < len "http://a-long-proxy-host.example:8080")%Z ->
     exists r,
       truncateString "http://a-long-proxy-host.example:8080" 20 = Some r /\
               len r = 20%Z /\
               r = substring 0 (Z.to_nat (20 - 3))
                     "http://a-long-proxy-host.example:8080" ++ "...")) /\
   ((20 < 3)%Z -> (20 < len "http://a-long-proxy-host.example:8080")%Z ->
    (wrap64 (20 - 3) < 0)%Z /\
    truncateString "http://a-long-proxy-host.example:8080" 20 = None)).
Proof.
  split; [unfold int_min, int_max; lia |].
  apply (truncateString_spec "http://a-long-proxy-host.example:8080" 20).
  unfold int_min, int_max. lia.
Defined.

(** * Further properties *)

(** ** The probe *)

Section ProbeMore.

Variable P : Platform.
Variable pt : ProxyTester.


(** A result that says the proxy works is sound: the probe received a
    response with status 200 whose body could be read, the IP of the result
    is the trimmed body, [net.ParseIP] accepts it, and there is no error. *)
Theorem testProxy_working_sound (proxyURL : string) (w : World) :
  IsWorking (fst (testProxy P pt proxyURL w)) = true ->
  exists resp body,
    receives P pt proxyURL w resp /\
    StatusCode resp = 200 /\
    body_read (ResponseBody resp) = Ok body /\
    IP (fst (testProxy P pt proxyURL w)) = strings_TrimSpace P body /\
    net_ParseIP P (IP (fst (testProxy P pt proxyURL w))) <> None /\
    Error (fst (testProxy P pt proxyURL w)) = "".
Proof.
  unfold receives. run_probe.
  destruct (url_Parse P proxyURL) as [u | e] eqn:Hp; [| discriminate].
  destruct (url_Parse P (testURL pt)) as [t | e] eqn:Ht; [| discriminate].
  cbn [fst snd].
  lazymatch goal with
  | |- context [reply ?x] => destruct (reply x) as [resp | e] eqn:Hr
  end; [| discriminate].
  unfold StatusOK.
  destruct (Z.eqb_spec (StatusCode resp) 200) as [Hs | Hs]; cbn [negb];
    [| discriminate].
  destruct (body_read (ResponseBody resp)) as [body | e] eqn:Hb; [| discriminate].
  destruct (net_ParseIP P (strings_TrimSpace P body)) eqn:Hip; [| discriminate].
  intros _. exists resp, body. cbn. rewrite Hip.
  split_and!; try reflexivity; try assumption; [| discriminate].
  exists u, t. auto.
Qed.

(** Every failure is classified: a result that does not say the proxy works
    carries one of the six errors of the probe, and the status code it names,
    if it names one, is not 200. *)
Theorem testProxy_failure_classified (proxyURL : string) (w : World) :
  let r := fst (testProxy P pt proxyURL w) in
  IsWorking r = true \/
  (exists err, Error r = "Invalid proxy URL: " ++ err) \/
  (exists err, Error r = "Failed to create request: " ++ err) \/
  (exists err, Error r = "Request failed: " ++ err) \/
  (exists code, code <> 200 /\ Error r = "HTTP " ++ fmt_d code) \/
  (exists err, Error r = "Failed to read response: " ++ err) \/
  Error r = "Invalid IP response".
Proof.
  cbv zeta. run_probe. unfold StatusOK.
  destruct (url_Parse P proxyURL) as [u | e]; [| right; left; eexists; reflexivity].
  destruct (url_Parse P (testURL pt)) as [t | e];
    [| right; right; left; eexists; reflexivity].
  cbn [fst snd].
  lazymatch goal with
  | |- context [reply ?x] => destruct (reply x) as [resp | e]
  end; [| right; right; right; left; eexists; reflexivity].
  destruct (Z.eqb_spec (StatusCode resp) 200) as [Hs | Hs]; cbn [negb].
  2: { right. right. right. right. left. exists (StatusCode resp).
       split; [exact Hs | reflexivity]. }
  destruct (body_read (ResponseBody resp)) as [body | e];
    [| do 5 right; left; eexists; reflexivity].
  destruct (net_ParseIP P (strings_TrimSpace P body));
    [left; reflexivity | do 6 right; reflexivity].
Qed.


(** A body that cannot be read is reported with the error of the read, and
    no IP is set, whatever was read before the error. *)
Theorem testProxy_body_read_failure (proxyURL err : string) (w : World)
  (resp : Response) :
  receives P pt proxyURL w resp ->
  StatusCode resp = 200 ->
  body_read (ResponseBody resp) = Err err ->
  let r := fst (testProxy P pt proxyURL w) in
  IsWorking r = false /\ IP r = "" /\
  Error r = "Failed to read response: " ++ err.
Proof.
  intros Hrecv Hs Hb.
  destruct (testProxy_receives P pt proxyURL w resp Hrecv)
    as (parsedProxy & target & Heq).
  cbv zeta in *. rewrite Heq, Hs, Hb. cbn. auto.
Qed.


End ProbeMore.

(** ** The worker pool, further *)

Local Close Scope string_scope.

Section PoolMore.

Variable P : Platform.
Variable pt : ProxyTester.
Variable proxies : list string.

Ltac pool_fields :=
  unfold set_main, set_worker, add_worker, set_closer, set_jobs, set_results,
    set_wg, set_probe in *;
  cbn [main workers closer jobs results wg world probed buf cap closed fst snd]
    in *.

(** The statement that a step runs, case by case. *)
Ltac which_step H :=
  let t := fresh "t" in
  let k := fresh "k" in
  destruct H as [t H]; destruct t as [| k |]; cbn [exec] in H;
  [ unfold exec_main in H | unfold exec_worker in H | unfold exec_closer in H ];
  unfold chan_send, chan_recv, chan_close, wg_Add, wg_Wait, step_map in *;
  pool_fields;
  repeat (case_match; try discriminate);
  simplify_eq; pool_fields; simplify_eq;
  try match goal with
      | Hl : _ !! _ = Some _ |- _ =>
          let l1 := fresh "l1" in
          let l2 := fresh "l2" in
          let Hins := fresh "Hins" in
          apply lookup_split in Hl as (l1 & l2 & -> & Hins);
          rewrite ?Hins; clear Hins
      end.

Lemma alive_le_length (ws : list WorkerPC) :
  (sum_list_with alive ws <= length ws)%nat.
Proof.
  induction ws as [| w ws IH]; cbn; [lia |]. destruct w; cbn; lia.
Qed.

(** The pool is bounded: at no point of any run are there more workers than
    the tester allows, the wait group counts between zero and that many, and
    no more probes have been made than there are addresses. *)
Theorem TestProxies_bounded (w : World) (s : Pool) :
  reachable P pt proxies w s ->
  (length (workers s) <= Z.to_nat (maxWorkers pt))%nat /\
  0 <= wg s <= Z.max 0 (maxWorkers pt) /\
  (length (probed s) <= length proxies)%nat.
Proof.
  intros HI%Inv_reachable.
  pose proof (items_length pt proxies s HI) as Hlen.
  destruct HI as [_ _ _ Hpr Hwg _ Hph _].
  apply Permutation_length in Hpr. rewrite length_map in Hpr.
  pose proof (alive_le_length (workers s)) as Hal.
  unfold wg_ok in Hwg. unfold phase_ok in Hph.
  destruct (main s); lia.
Qed.

(** When [TestProxies] returns it leaves nothing behind: under every
    schedule, and for every worker count, every worker and the closer have
    exited, the wait group is at zero, both channels are closed and [results]
    is drained; with at least one worker [jobs] is drained too. *)
Theorem TestProxies_leaves_nothing (w : World) :
  must_return P pt proxies
    (fun _ s =>
       Forall (fun worker => worker = WExit) (workers s) /\
       closer s = Some CExit /\
       wg s = 0 /\
       closed (jobs s) = true /\
       closed (results s) = true /\
       buf (results s) = [] /\
       (1 <= maxWorkers pt -> buf (jobs s) = []))
    (init proxies w).
Proof.
  eapply must_return_mono;
    [| apply (must_return_Inv P pt proxies (fun _ => True));
       [auto | apply Inv_init | exact I]].
  cbn beta. intros allResults s Hret [HI _].
  destruct (Inv_returned pt proxies s allResults HI Hret) as (_ & _ & Hex & _).
  pose proof (Inv_returned_pending pt proxies s allResults) as Hpend.
  pose proof (inv_phase _ _ _ HI) as Hph. pose proof (inv_closer _ _ _ HI) as Hcl.
  unfold phase_ok, closer_ok, returned in *.
  destruct (main s); try discriminate.
  destruct Hph as (_ & Hj & Hc & Hb). rewrite Hc in Hcl. destruct Hcl as [Hr Hwg].
  split_and!; auto.
  intros Hn. specialize (Hpend Hn HI Hret). unfold pending in Hpend.
  apply app_eq_nil in Hpend as [_ Hpend].
  apply app_eq_nil in Hpend as [Hpend _]. exact Hpend.
Qed.

(** Every result that [TestProxies] returns is genuine: under every schedule
    each one is the result of [testProxy] on the address it names, in some
    state of the world. *)
Theorem TestProxies_results_genuine (w : World) :
  must_return P pt proxies
    (fun allResults _ =>
       Forall (fun r => exists w', r = fst (testProxy P pt (Proxy r) w'))
              allResults)
    (init proxies w).
Proof.
  set (genuine := fun r => exists w', r = fst (testProxy P pt (Proxy r) w')).
  eapply must_return_mono;
    [| apply (must_return_Inv P pt proxies
                (fun s => Forall genuine (produced s)));
       [| apply Inv_init | constructor]].
  - cbn beta. intros allResults s Hret [HI HJ].
    destruct (Inv_returned pt proxies s allResults HI Hret) as (<- & _).
    exact HJ.
  - intros s s' _ HJ H. destruct s as [m ws c j r g wd pr].
    which_step H; unfold produced in *; pool_fields;
      cbn [main_results] in *;
      repeat match goal with Hb : buf _ = _ |- _ => rewrite Hb in * end;
      rewrite ?flat_map_app in *; cbn [flat_map held_result app] in *;
      rewrite ?Forall_app, ?Forall_cons, ?Forall_app in *;
      try (intuition (auto using Forall_nil); fail).
    assert (genuine p).
    { exists wd. match goal with
                 | H : testProxy _ _ ?a _ = _ |- _ =>
                     rewrite (testProxy_Proxy_eq P pt a _ _ _ H), H
                 end. reflexivity. }
    intuition.
Qed.

(** The addresses of the results returned are among the input, each at most
    as often as it is in the input, whatever the worker count. *)
Lemma returned_addresses (s : Pool) (allResults : list ProxyResult) :
  Inv pt proxies s -> returned s = Some allResults ->
  map Proxy allResults ⊆+ proxies.
Proof.
  intros HI Hret.
  destruct (Inv_returned pt proxies s allResults HI Hret) as (Hprod & _).
  rewrite <- (inv_items _ _ _ HI), Hprod. apply submseteq_inserts_r.
  reflexivity.
Qed.

(** Without workers nothing is probed and nothing returned. *)
Lemma no_workers_returns (w : World) :
  maxWorkers pt <= 0 ->
  must_return P pt proxies
    (fun allResults s => allResults = [] /\ world s = w) (init proxies w).
Proof.
  intros Hn.
  eapply must_return_mono;
    [| apply (must_return_Inv P pt proxies
                (fun s => workers s = [] /\ probed s = [] /\ world s = w));
       [| apply Inv_init | auto]].
  - cbn beta. intros allResults s Hret (HI & Hws & Hpr & Hw).
    destruct (Inv_returned pt proxies s allResults HI Hret) as (Hprod & _).
    pose proof (inv_probed _ _ _ HI) as Hp.
    rewrite Hpr, Hprod in Hp. apply Permutation_nil in Hp.
    apply map_eq_nil in Hp. auto.
  - intros s s' HI (Hws & Hpr & Hw) H.
    pose proof (inv_phase _ _ _ HI) as Hph. unfold phase_ok in Hph.
    destruct s as [m ws c j r g wd pr].
    which_step H; pool_fields; subst; auto; try lia;
      try (exfalso; eapply app_cons_not_nil; eauto; fail).
Qed.

End PoolMore.

(** ** The loader, further *)

Local Open Scope string_scope.

Section LoaderMore.

Variable P : Platform.

(** The loader works line by line: what it loads from two inputs one after
    the other is what it loads from the first followed by what it loads from
    the second. *)
Theorem loadProxiesFromReader_app (lines1 lines2 : list string)
  (err err1 err2 : option string) :
  fst (loadProxiesFromReader P (lines1 ++ lines2) err)
  = (fst (loadProxiesFromReader P lines1 err1)
     ++ fst (loadProxiesFromReader P lines2 err2))%list.
Proof.
  unfold loadProxiesFromReader. cbn [fst].
  rewrite !fold_load_line. cbn [app].
  rewrite map_app, List.filter_app, map_app. reflexivity.
Qed.

Lemma has_scheme_keep_line (line : string) :
  has_scheme line = true -> keep_line line = true.
Proof.
  unfold has_scheme, keep_line, HasPrefix.
  destruct line as [| c line]; [discriminate |].
  cbn [String.prefix String.eqb negb andb].
  destruct (ascii_dec "h" c) as [<- | Hh]; [reflexivity |].
  destruct (ascii_dec "s" c) as [<- | Hs]; [reflexivity |].
  discriminate.
Qed.

Lemma with_scheme_fixed (line : string) :
  has_scheme line = true -> with_scheme line = line.
Proof. unfold with_scheme. intros ->. reflexivity. Qed.

(** What the loader returns can be loaded again and comes back unchanged,
    provided that the lines it returns have no surrounding white space for
    [strings.TrimSpace] to remove. *)
Theorem loadProxiesFromReader_reload (lines : list string)
  (err err' : option string) :
  (forall text,
      strings_TrimSpace P (with_scheme (strings_TrimSpace P text))
      = with_scheme (strings_TrimSpace P text)) ->
  let proxies := fst (loadProxiesFromReader P lines err) in
  fst (loadProxiesFromReader P proxies err') = proxies.
Proof.
  intros Htrim. cbv zeta. unfold loadProxiesFromReader. cbn [fst].
  rewrite !fold_load_line. cbn [app].
  induction (map (strings_TrimSpace P) lines) as [| line lines' IH] eqn:Hl
    in lines |- *.
  - reflexivity.
  - destruct lines as [| text lines]; [discriminate |].
    injection Hl as <- Hl. cbn [List.filter].
    destruct (keep_line (strings_TrimSpace P text)); [| eauto].
    cbn [map List.filter]. rewrite Htrim.
    rewrite (has_scheme_keep_line _ (has_scheme_with_scheme _)).
    cbn [map]. rewrite (with_scheme_fixed _ (has_scheme_with_scheme _)).
    f_equal. eauto.
Qed.

End LoaderMore.

(** ** [truncateString], further *)

Lemma truncateString_total (s : string) (maxLen : Z) :
  3 <= maxLen <= int_max ->
  truncateString s maxLen
  = Some (if (len s <=? maxLen)%Z then s
          else substring 0 (Z.to_nat (maxLen - 3)) s ++ "...").
Proof.
  intros Hrange. unfold truncateString, slice_to.
  destruct (Z.leb_spec (len s) maxLen); [reflexivity |].
  assert (Hwrap : wrap64 (maxLen - 3) = maxLen - 3).
  { unfold wrap64, int_max in *. rewrite Z.mod_small by lia. lia. }
  rewrite Hwrap.
  destruct (Z.ltb_spec (maxLen - 3) 0); [lia |].
  destruct (Z.ltb_spec (len s) (maxLen - 3)); [lia |]. reflexivity.
Qed.

(** Truncating twice is truncating once, and the result is never longer
    than the string or than [maxLen] (for a [maxLen] of at least 3). *)
Theorem truncateString_idempotent (s r : string) (maxLen : Z) :
  3 <= maxLen <= int_max ->
  truncateString s maxLen = Some r ->
  truncateString r maxLen = Some r /\ len r <= maxLen /\ len r <= len s.
Proof.
  intros Hrange Ht. rewrite truncateString_total in Ht by assumption.
  injection Ht as <-. rewrite truncateString_total by assumption.
  destruct (Z.leb_spec (len s) maxLen) as [Hle | Hlt].
  - destruct (Z.leb_spec (len s) maxLen); [auto with zarith | lia].
  - assert (Hlen : len (substring 0 (Z.to_nat (maxLen - 3)) s ++ "...") = maxLen).
    { unfold len in *. rewrite length_append, length_substring_0 by lia.
      cbn [String.length]. lia. }
    rewrite Hlen. destruct (Z.leb_spec maxLen maxLen); [| lia].
    split_and!; [reflexivity | lia | lia].
Qed.

(** ** [printResults], further *)

Section PrintingFacts.

Variable F : Fmt.

Lemma truncateString_50 (proxy : string) :
  truncateString proxy 50 = Some (shown proxy).
Proof.
  rewrite truncateString_total by (unfold int_max; lia). reflexivity.
Qed.

Lemma bindIO_print {B : Type} (text : string) (k : unit -> IO B) :
  bindIO (Print text) k = (Stdout text :: fst (k tt), snd (k tt)).
Proof. unfold bindIO, Print. destruct (k tt). reflexivity. Qed.

Lemma print_rows_spec (results : list ProxyResult) (workingCount : Z) :
  print_rows F results workingCount
  = (map Stdout (flat_map (result_lines F) results),
     Some (workingCount
           + Z.of_nat (length (List.filter IsWorking results)))).
Proof.
  revert workingCount.
  induction results as [| result rest IH]; intros workingCount.
  - cbn. rewrite Z.add_0_r. reflexivity.
  - cbn [print_rows flat_map List.filter]. unfold result_lines at 1.
    rewrite truncateString_50.
    destruct (IsWorking result); unfold Println;
      rewrite ?bindIO_print; cbn [bindIO retIO fst snd app];
      rewrite ?bindIO_print, IH; cbn [fst snd app map length];
      rewrite ?map_app; cbn [map app]; try reflexivity.
  do 2 f_equal. lia.
Qed.

Lemma printResults_prints (results : list ProxyResult) :
  exists texts, printResults F results = (map Stdout texts, Some tt).
Proof.
  unfold printResults, Println. rewrite !bindIO_print.
  cbn [fst snd]. rewrite print_rows_spec. cbn [bindIO Print fst snd map app].
  eexists (_ :: _ :: _ ++ [_]). rewrite !map_cons, map_app. reflexivity.
Qed.

(** [printResults] never panics, and writes, in this order: the heading and
    the rule; for every result, in the order of the results, the address on a
    line of its own if the proxy works, and the row of the table, with the
    address cut down to 50 bytes; the summary, which counts the results that
    say the proxy works. *)
Theorem printResults_spec (results : list ProxyResult) :
  printResults F results
  = (map Stdout
       ((NL ++ table_row F "PROXY" "STATUS" "IP" "TIME" "ERROR")
        :: (Repeat "-" 100 ++ NL)
        :: app (flat_map (result_lines F) results)
             [summary F (Z.of_nat (length (List.filter IsWorking results)))
                (Z.of_nat (length results))]),
     Some tt).
Proof.
  unfold printResults, Println. rewrite !bindIO_print.
  cbn [fst snd]. rewrite print_rows_spec. cbn [bindIO Print fst snd map app].
  rewrite !map_app, Z.add_0_l. reflexivity.
Qed.

End PrintingFacts.

(** ** [main], further *)

Local Close Scope string_scope.

Lemma workingProxies_spec (results : list ProxyResult) :
  workingProxies results = map Proxy (List.filter IsWorking results).
Proof.
  unfold workingProxies.
  assert (H : forall acc,
             fold_left (fun working result =>
                          if IsWorking result then working ++ [Proxy result]
                          else working) results acc
             = acc ++ map Proxy (List.filter IsWorking results)).
  { induction results as [| r rs IH]; intros acc; cbn [fold_left List.filter].
    - cbn. rewrite app_nil_r. reflexivity.
    - rewrite IH. destruct (IsWorking r); [| reflexivity].
      cbn [map]. rewrite <- app_assoc. reflexivity. }
  apply (H []).
Qed.

Lemma write_proxies_spec (working : list string) :
  write_proxies working
  = (map (fun proxy => Write "working_proxies.txt" (proxy ++ NL)%string) working,
     Some tt).
Proof.
  induction working as [| proxy rest IH]; cbn [write_proxies map];
    [reflexivity |].
  unfold bindIO. rewrite IH. reflexivity.
Qed.

Lemma working_submseteq (results : list ProxyResult) :
  map Proxy (List.filter IsWorking results) ⊆+ map Proxy results.
Proof.
  induction results as [| r rs IH]; cbn [List.filter map]; [constructor |].
  destruct (IsWorking r); cbn [map]; constructor; assumption.
Qed.

Lemma written_Stdout (texts : list string) : written (map Stdout texts) = [].
Proof. induction texts; cbn; auto. Qed.

Lemma created_Stdout (texts : list string) : created (map Stdout texts) = [].
Proof. induction texts; cbn; auto. Qed.

Lemma printed_Stdout (texts : list string) :
  printed (map Stdout texts) = texts.
Proof.
  induction texts as [| t ts IH]; [reflexivity |].
  cbn [map]. unfold printed in *. cbn [flat_map app]. rewrite IH. reflexivity.
Qed.

Lemma loaded_have_scheme (P : Platform) (lines : list string)
  (err : option string) :
  Forall (fun proxy => has_scheme proxy = true)
         (fst (loadProxiesFromReader P lines err)).
Proof.
  unfold loadProxiesFromReader. cbn [fst]. rewrite fold_load_line. cbn [app].
  apply List.Forall_forall. intros proxy Hin.
  apply in_map_iff in Hin as (l & <- & _). apply has_scheme_with_scheme.
Qed.

Section MainFacts.

Variable P : Platform.
Variable F : Fmt.
Variable os : OS.

(** What [main] does with the results never panics and is this: it prints
    them with [printResults]; then, if some proxy works and the file
    [working_proxies.txt] can be created, it creates it, writes the working
    addresses to it, one per line and in the order of the results, and says
    so; if no proxy works no file is created, and if the file cannot be
    created nothing is said. *)
Theorem main_finish_spec (results : list ProxyResult) :
  let working := map Proxy (List.filter IsWorking results) in
  let saved :=
    match working, os_Create os "working_proxies.txt" with
    | _ :: _, Ok _ =>
        Create "working_proxies.txt"
        :: map (fun proxy => Write "working_proxies.txt" (proxy ++ NL)%string)
             working
        ++ [Stdout (NL ++ "Working proxies saved to: working_proxies.txt"
                    ++ NL)%string]
    | _, _ => []
    end in
  main_finish F os results = (fst (printResults F results) ++ saved, Some tt).
Proof.
  cbv zeta. unfold main_finish.
  destruct (printResults_prints F results) as (texts & ->).
  cbn [bindIO fst]. rewrite workingProxies_spec.
  destruct (map Proxy (List.filter IsWorking results)) as [| p working];
    cbn [length].
  - cbn. reflexivity.
  - replace (0 <? Z.of_nat (S (length working))) with true by lia.
    destruct (os_Create os "working_proxies.txt") as [[] | e].
    + cbn [bindIO]. rewrite write_proxies_spec. cbn [Print app].
      reflexivity.
    + cbn. reflexivity.
Qed.

Lemma main_load_spec (fl : Flags) :
  exists texts,
    fst (main_load P os fl) = map Stdout texts /\
    match snd (main_load P os fl) with
    | None => False
    | Some None => True
    | Some (Some proxies) =>
        (proxyFile fl <> ""%string /\
         loadProxiesFromFile P os (proxyFile fl) = (proxies, None)) \/
        (proxyFile fl = ""%string /\ isStdinAvailable os = true /\
         loadProxiesFromReader P (fst (Stdin os)) (snd (Stdin os))
         = (proxies, None))
    end.
Proof.
  unfold main_load, Println.
  destruct (String.eqb_spec (proxyFile fl) "") as [He | He]; cbn [negb].
  - destruct (isStdinAvailable os) eqn:Hs.
    + rewrite bindIO_print.
      destruct (loadProxiesFromReader P (fst (Stdin os)) (snd (Stdin os)))
        as [proxies [err |]] eqn:Hl.
      * eexists [_; _]. cbn. auto.
      * eexists [_]. cbn. split; [reflexivity |]. right. auto.
    + eexists [_; _; _; _; _]. cbn. auto.
  - rewrite bindIO_print.
    destruct (loadProxiesFromFile P os (proxyFile fl))
      as [proxies [err |]] eqn:Hl.
    + eexists [_; _]. cbn. auto.
    + eexists [_]. cbn. split; [reflexivity |]. left. auto.
Qed.

Lemma main_start_run (fl : Flags) (out : list Out) (tester : ProxyTester)
  (proxies : list string) :
  main_start P os fl = (out, Some (Run tester proxies)) ->
  tester = NewProxyTester (wrap64 (timeoutFlag fl * Second)) (workersFlag fl)
  /\ (exists texts, out = map Stdout texts)
  /\ Forall (fun proxy => has_scheme proxy = true) proxies.
Proof.
  unfold main_start. destruct (showVersion fl); [discriminate |].
  unfold Println. rewrite !bindIO_print. cbn [fst snd].
  destruct (main_load_spec fl) as (texts & Hout & Hload).
  destruct (main_load P os fl) as [out' [[ps |] |]]; cbn [fst snd] in *;
    subst out'; cbn [bindIO]; try discriminate.
  destruct (Z.of_nat (length ps) =? 0); [discriminate |].
  rewrite bindIO_print. cbn [retIO fst snd]. intros H. injection H as <- <- <-.
  split_and!; [reflexivity | |].
  - eexists (_ :: _ :: texts ++ [_]). rewrite !map_cons, map_app. reflexivity.
  - change ps with (fst (ps, @None string)).
    destruct Hload as [[_ Hl] | (_ & _ & Hl)]; rewrite <- Hl;
      [| apply loaded_have_scheme].
    unfold loadProxiesFromFile.
    destruct (os_Open os (proxyFile fl)) as [[lines err] |];
      [apply loaded_have_scheme | constructor].
Qed.


End MainFacts.

(** With [-l], [main] never looks at standard input: neither its mode nor
    what it holds has any bearing on how the first part of [main] ends or on
    what it prints. *)
Theorem main_start_file_first (P : Platform) (os os' : OS) (fl : Flags) :
  proxyFile fl <> ""%string ->
  os_Open os = os_Open os' ->
  main_start P os fl = main_start P os' fl.
Proof.
  intros Hf Ho. unfold main_start, main_load, loadProxiesFromFile.
  destruct (String.eqb_spec (proxyFile fl) ""); [contradiction |].
  cbn [negb]. rewrite Ho. reflexivity.
Qed.

(** [main] turns the seconds of [-t] into a duration by a multiplication
    that wraps around: the tester gets the timeout asked for exactly when
    that is between -9223372036 and 9223372036 seconds. *)
Theorem main_timeout (P : Platform) (os : OS) (fl : Flags) (out : list Out)
  (tester : ProxyTester) (proxies : list string) :
  main_start P os fl = (out, Some (Run tester proxies)) ->
  int_min <= timeoutFlag fl <= int_max ->
  (timeout tester = timeoutFlag fl * Second
   <-> -9223372036 <= timeoutFlag fl <= 9223372036).
Proof.
  intros Hs Hrange.
  destruct (main_start_run P os fl _ _ _ Hs) as (-> & _).
  cbn [timeout NewProxyTester].
  unfold wrap64, Second, int_min, int_max in *.
  pose proof (Z.mod_pos_bound (timeoutFlag fl * 1000000000 + 2 ^ 63) (2 ^ 64)
                ltac:(lia)) as Hb.
  split.
  - intros He. lia.
  - intros Hin. rewrite Z.mod_small by lia. lia.
Qed.

Lemma written_app (out1 out2 : list Out) :
  written (out1 ++ out2) = written out1 ++ written out2.
Proof. apply flat_map_app. Qed.

Lemma written_writes (working : list string) :
  written (map (fun proxy => Write "working_proxies.txt" (proxy ++ NL)%string)
             working)
  = map (fun proxy => (proxy ++ NL)%string) working.
Proof.
  induction working as [| p ps IH]; [reflexivity |].
  cbn [map]. unfold written in *. cbn [flat_map app]. rewrite IH. reflexivity.
Qed.

(** What the second part of [main] writes to files. *)
Lemma main_finish_written (F : Fmt) (os : OS) (results : list ProxyResult) :
  exists out saved,
    main_finish F os results = (out, Some tt) /\
    written out = map (fun proxy => (proxy ++ NL)%string) saved /\
    saved ⊆+ map Proxy results.
Proof.
  unfold main_finish.
  destruct (printResults_prints F results) as (texts & ->).
  cbn [bindIO]. rewrite workingProxies_spec.
  pose proof (working_submseteq results) as Hsub.
  destruct (map Proxy (List.filter IsWorking results)) as [| p working];
    cbn [length].
  - cbn. exists (map Stdout texts ++ []), []. rewrite written_app, written_Stdout.
    split_and!; [reflexivity | reflexivity | apply submseteq_nil_l].
  - replace (0 <? Z.of_nat (S (length working))) with true by lia.
    destruct (os_Create os "working_proxies.txt") as [[] | e].
    + cbn [bindIO]. rewrite write_proxies_spec. cbn [Print app].
      eexists _, (p :: working). split; [reflexivity |].
      split; [| exact Hsub].
      rewrite written_app, written_Stdout. cbn [app].
      change (Create ?n :: ?l) with ([Create n] ++ l).
      rewrite !written_app, written_writes. cbn. rewrite app_nil_r.
      reflexivity.
    + cbn. exists (map Stdout texts ++ []), [].
      rewrite written_app, written_Stdout.
      split_and!; [reflexivity | reflexivity | apply submseteq_nil_l].
Qed.

(** Whatever the schedule of the pool and whatever the worker count, once
    [main] has a list to test it ends with exit code 0, without panic or
    deadlock, and what it has written to files is a list of lines, one
    address each, all of them addresses of the list it loaded, none more
    often than it is in that list, each with its scheme. *)
Theorem main_saves_inputs (P : Platform) (F : Fmt) (os : OS) (fl : Flags)
  (w : World) (out0 : list Out) (tester : ProxyTester)
  (proxies : list string) :
  main_start P os fl = (out0, Some (Run tester proxies)) ->
  main_always P F os fl w
    (fun out code _ =>
       code = 0 /\
       exists saved,
         written out = map (fun proxy => (proxy ++ NL)%string) saved /\
         saved ⊆+ proxies /\
         Forall (fun proxy => has_scheme proxy = true) saved).
Proof.
  intros Hs. unfold main_always. rewrite Hs.
  destruct (main_start_run P os fl _ _ _ Hs) as (_ & (texts & ->) & Hsch).
  eapply must_return_mono;
    [| apply (must_return_Inv P tester proxies (fun _ => True));
       [auto | apply Inv_init | exact I]].
  cbn beta. intros results s Hret [HI _].
  destruct (main_finish_written F os results) as (out & saved & -> & Hw & Hsub).
  split; [reflexivity |]. exists saved.
  rewrite written_app, written_Stdout, Hw.
  assert (Hin : saved ⊆+ proxies)
    by (etrans; [exact Hsub | eapply returned_addresses; eauto]).
  split_and!; [reflexivity | exact Hin |].
  apply Forall_forall. intros proxy Hp. rewrite Forall_forall in Hsch.
  apply Hsch. eapply elem_of_submseteq; eauto.
Qed.

(** With a worker count of zero or less [main] tests nothing and does not
    say so: whatever the schedule, it ends with exit code 0 and the world
    untouched, creates no file, and prints after the heading of the table a
    summary of 0 out of 0 proxies whose percentage is not a number. *)
Theorem main_no_workers (P : Platform) (F : Fmt) (os : OS) (fl : Flags)
  (w : World) (out0 : list Out) (tester : ProxyTester)
  (proxies : list string) :
  main_start P os fl = (out0, Some (Run tester proxies)) ->
  workersFlag fl <= 0 ->
  main_always P F os fl w
    (fun out code w' =>
       code = 0 /\ w' = w /\
       out = out0
             ++ map Stdout
                  [(NL ++ table_row F "PROXY" "STATUS" "IP" "TIME" "ERROR")%string;
                   (Repeat "-" 100 ++ NL)%string;
                   (NL ++ "Summary: 0/0 proxies working ("
                    ++ Sprintf_f F 1 PrimFloat.nan ++ "%)" ++ NL)%string]).
Proof.
  intros Hs Hn. unfold main_always. rewrite Hs.
  destruct (main_start_run P os fl _ _ _ Hs) as (-> & _ & _).
  eapply must_return_mono;
    [| apply (no_workers_returns P _ proxies w); exact Hn].
  cbn beta. intros results s _ [-> ->].
  assert (Hfin : main_finish F os []
                 = (map Stdout
                      [(NL ++ table_row F "PROXY" "STATUS" "IP" "TIME" "ERROR")%string;
                       (Repeat "-" 100 ++ NL)%string;
                       (NL ++ "Summary: 0/0 proxies working ("
                        ++ Sprintf_f F 1 PrimFloat.nan ++ "%)" ++ NL)%string],
                    Some tt)) by reflexivity.
  rewrite Hfin. auto.
Qed.

Local Open Scope string_scope.

(** ** Further concrete inputs *)

Lemma trim_right_idempotent (s : string) :
  Fixture.trim_right (Fixture.trim_right s) = Fixture.trim_right s.
Proof.
  induction s as [| c s IH]; [reflexivity |]. cbn [Fixture.trim_right].
  destruct (Fixture.trim_right s) as [| d t] eqn:Ht.
  - destruct (Fixture.is_space c) eqn:Hc; [reflexivity |].
    cbn. rewrite Hc. reflexivity.
  - cbn [Fixture.trim_right] in *. rewrite IH. reflexivity.
Qed.

Lemma trim_left_head (s : string) :
  match Fixture.trim_left s with
  | String c _ => Fixture.is_space c = false
  | EmptyString => True
  end.
Proof.
  induction s as [| c s IH]; [exact I |]. cbn [Fixture.trim_left].
  destruct (Fixture.is_space c) eqn:Hc; [exact IH | exact Hc].
Qed.

Lemma trim_right_head (c : ascii) (s : string) :
  Fixture.is_space c = false ->
  Fixture.trim_right (String c s) = String c (Fixture.trim_right s).
Proof.
  intros Hc. cbn [Fixture.trim_right].
  destruct (Fixture.trim_right s); [rewrite Hc |]; reflexivity.
Qed.

Lemma TrimSpace_idempotent (s : string) :
  Fixture.TrimSpace (Fixture.TrimSpace s) = Fixture.TrimSpace s.
Proof.
  unfold Fixture.TrimSpace. pose proof (trim_left_head s) as Hh.
  destruct (Fixture.trim_left s) as [| c s'] eqn:Hl; [reflexivity |].
  rewrite (trim_right_head c s' Hh). cbn [Fixture.trim_left]. rewrite Hh.
  rewrite <- (trim_right_head c s' Hh). apply trim_right_idempotent.
Qed.

Lemma TrimSpace_http (s : string) :
  Fixture.TrimSpace s = s ->
  Fixture.TrimSpace ("http://" ++ s) = "http://" ++ s.
Proof.
  intros Hs. assert (Hr : Fixture.trim_right s = s).
  { rewrite <- Hs. unfold Fixture.TrimSpace. apply trim_right_idempotent. }
  unfold Fixture.TrimSpace. change (Fixture.trim_left ("http://" ++ s))
    with ("http://" ++ s).
  cbn [append]. rewrite !trim_right_head by reflexivity. rewrite Hr.
  reflexivity.
Qed.

(** The fixture trims as the loader needs it to. *)
Lemma Fixture_trims (text : string) :
  strings_TrimSpace Fixture.platform
    (with_scheme (strings_TrimSpace Fixture.platform text))
  = with_scheme (strings_TrimSpace Fixture.platform text).
Proof.
  cbn [strings_TrimSpace Fixture.platform]. unfold with_scheme.
  destruct (has_scheme (Fixture.TrimSpace text)).
  - apply TrimSpace_idempotent.
  - apply TrimSpace_http, TrimSpace_idempotent.
Qed.

Lemma run_reachable (P : Platform) (pt : ProxyTester) (proxies : list string)
  (sched : list Tid) (w : World) (s : Pool) :
  run P pt proxies sched (init proxies w) = Next s ->
  reachable P pt proxies w s.
Proof.
  intros Hrun.
  destruct (run_Inv P pt proxies sched _ (Inv_init pt proxies w))
    as (s' & Hrun' & _ & _ & Hr & _).
  rewrite Hrun in Hrun'. injection Hrun' as ->. exact Hr.
Qed.

Lemma midway_reachable :
  reachable Fixture.platform (Fixture.tester 2) Fixture.three_proxies
    Fixture.world0 FixtureOS.midway.
Proof. apply (run_reachable _ _ _ FixtureOS.schedule). reflexivity. Qed.

(** A probe through the proxy [good] of the fixture. *)
Lemma testProxy_working_sound_witness :
  IsWorking (fst (testProxy Fixture.platform (Fixture.tester 10)
                    "http://good:8080" Fixture.world0)) = true /\
  exists resp body,
    receives Fixture.platform (Fixture.tester 10) "http://good:8080"
      Fixture.world0 resp /\
    StatusCode resp = 200 /\
    body_read (ResponseBody resp) = Ok body /\
    IP (fst (testProxy Fixture.platform (Fixture.tester 10)
               "http://good:8080" Fixture.world0))
    = strings_TrimSpace Fixture.platform body /\
    net_ParseIP Fixture.platform
      (IP (fst (testProxy Fixture.platform (Fixture.tester 10)
                  "http://good:8080" Fixture.world0))) <> None /\
    Error (fst (testProxy Fixture.platform (Fixture.tester 10)
                  "http://good:8080" Fixture.world0)) = "".
Proof.
  split; [reflexivity |].
  apply (testProxy_working_sound Fixture.platform (Fixture.tester 10)
           "http://good:8080" Fixture.world0).
  reflexivity.
Defined.


(** A probe through the proxy [cut], whose answer breaks off. *)
Lemma testProxy_body_read_failure_witness :
  receives Fixture.platform (Fixture.tester 10) "http://cut:8080"
    Fixture.world0 Fixture.cut /\
  StatusCode Fixture.cut = 200 /\
  body_read (ResponseBody Fixture.cut) = Err "unexpected EOF" /\
  let r := fst (testProxy Fixture.platform (Fixture.tester 10)
                  "http://cut:8080" Fixture.world0) in
  IsWorking r = false /\ IP r = "" /\
  Error r = "Failed to read response: " ++ "unexpected EOF".
Proof.
  assert (Hrecv : receives Fixture.platform (Fixture.tester 10)
                    "http://cut:8080" Fixture.world0 Fixture.cut)
    by (eexists _, _; split_and!; reflexivity).
  split_and!; [exact Hrecv | reflexivity | reflexivity |].
  apply (testProxy_body_read_failure Fixture.platform (Fixture.tester 10)
           "http://cut:8080" "unexpected EOF" Fixture.world0 Fixture.cut
           Hrecv); reflexivity.
Defined.


(** The bounds in a pool of two workers part of the way. *)
Lemma TestProxies_bounded_witness :
  reachable Fixture.platform (Fixture.tester 2) Fixture.three_proxies
    Fixture.world0 FixtureOS.midway /\
  (length (workers FixtureOS.midway)
   <= Z.to_nat (maxWorkers (Fixture.tester 2)))%nat /\
  0 <= wg FixtureOS.midway <= Z.max 0 (maxWorkers (Fixture.tester 2)) /\
  (length (probed FixtureOS.midway) <= length Fixture.three_proxies)%nat.
Proof.
  split; [exact midway_reachable |].
  apply (TestProxies_bounded Fixture.platform (Fixture.tester 2)
           Fixture.three_proxies Fixture.world0 FixtureOS.midway).
  exact midway_reachable.
Defined.

(** The two sends that are due in that pool. *)
Lemma send_never_blocks_witness :
  reachable Fixture.platform (Fixture.tester 2) Fixture.three_proxies
    Fixture.world0 FixtureOS.midway /\
  (forall proxy rest,
      main FixtureOS.midway = MSend (proxy :: rest) ->
      exec Fixture.platform (Fixture.tester 2) Fixture.three_proxies TMain
        FixtureOS.midway <> Blocked) /\
  (forall k result,
      workers FixtureOS.midway !! k = Some (WSend result) ->
      exec Fixture.platform (Fixture.tester 2) Fixture.three_proxies
        (TWorker k) FixtureOS.midway <> Blocked).
Proof.
  split; [exact midway_reachable |].
  apply (send_never_blocks Fixture.platform (Fixture.tester 2)
           Fixture.three_proxies Fixture.world0 FixtureOS.midway).
  exact midway_reachable.
Defined.

(** Loading the list file of the fixture, and loading the result again. *)
Lemma loadProxiesFromReader_reload_witness :
  (forall text,
      strings_TrimSpace Fixture.platform
        (with_scheme (strings_TrimSpace Fixture.platform text))
      = with_scheme (strings_TrimSpace Fixture.platform text)) /\
  let proxies :=
    fst (loadProxiesFromReader Fixture.platform (fst FixtureOS.list_file) None)
  in
  fst (loadProxiesFromReader Fixture.platform proxies None) = proxies.
Proof.
  split; [exact Fixture_trims |].
  apply (loadProxiesFromReader_reload Fixture.platform
           (fst FixtureOS.list_file) None None).
  exact Fixture_trims.
Defined.

Lemma truncateString_idempotent_witness :
  3 <= 20 <= int_max /\
  truncateString "http://a-long-proxy-host.example:8080" 20
  = Some "http://a-long-pro..." /\
  truncateString "http://a-long-pro..." 20 = Some "http://a-long-pro..." /\
  len "http://a-long-pro..." <= 20 /\
  len "http://a-long-pro..." <= len "http://a-long-proxy-host.example:8080".
Proof.
  split; [unfold int_max; lia |]. split; [reflexivity |].
  apply (truncateString_idempotent "http://a-long-proxy-host.example:8080"
           "http://a-long-pro..." 20);
    [unfold int_max; lia | reflexivity].
Defined.

(** With [-l], a pipe on standard input and a terminal give the same run. *)
Lemma main_start_file_first_witness :
  proxyFile (FixtureOS.flags 2) <> "" /\
  os_Open FixtureOS.os = os_Open FixtureOS.os_terminal /\
  main_start Fixture.platform FixtureOS.os (FixtureOS.flags 2)
  = main_start Fixture.platform FixtureOS.os_terminal (FixtureOS.flags 2).
Proof.
  split; [discriminate |]. split; [reflexivity |].
  apply (main_start_file_first Fixture.platform FixtureOS.os
           FixtureOS.os_terminal (FixtureOS.flags 2));
    [discriminate | reflexivity].
Defined.

Lemma main_timeout_witness :
  main_start Fixture.platform FixtureOS.os (FixtureOS.flags 2)
  = (fst (main_start Fixture.platform FixtureOS.os (FixtureOS.flags 2)),
     Some (Run (Fixture.tester 2) FixtureOS.loaded)) /\
  int_min <= timeoutFlag (FixtureOS.flags 2) <= int_max /\
  (timeout (Fixture.tester 2) = timeoutFlag (FixtureOS.flags 2) * Second
   <-> -9223372036 <= timeoutFlag (FixtureOS.flags 2) <= 9223372036).
Proof.
  split; [reflexivity |]. split; [unfold int_min, int_max; cbn; lia |].
  apply (main_timeout Fixture.platform FixtureOS.os (FixtureOS.flags 2)
           (fst (main_start Fixture.platform FixtureOS.os (FixtureOS.flags 2)))
           (Fixture.tester 2) FixtureOS.loaded);
    [reflexivity | unfold int_min, int_max; cbn; lia].
Defined.

Lemma main_saves_inputs_witness :
  main_start Fixture.platform FixtureOS.os (FixtureOS.flags 2)
  = (fst (main_start Fixture.platform FixtureOS.os (FixtureOS.flags 2)),
     Some (Run (Fixture.tester 2) FixtureOS.loaded)) /\
  main_always Fixture.platform FixtureOS.fmt FixtureOS.os (FixtureOS.flags 2)
    Fixture.world0
    (fun out code _ =>
       code = 0 /\
       exists saved,
         written out = map (fun proxy => proxy ++ NL) saved /\
         saved ⊆+ FixtureOS.loaded /\
         Forall (fun proxy => has_scheme proxy = true) saved).
Proof.
  split; [reflexivity |].
  apply (main_saves_inputs Fixture.platform FixtureOS.fmt FixtureOS.os
           (FixtureOS.flags 2) Fixture.world0
           (fst (main_start Fixture.platform FixtureOS.os (FixtureOS.flags 2)))
           (Fixture.tester 2) FixtureOS.loaded).
  reflexivity.
Defined.

Lemma main_no_workers_witness :
  main_start Fixture.platform FixtureOS.os (FixtureOS.flags 0)
  = (fst (main_start Fixture.platform FixtureOS.os (FixtureOS.flags 0)),
     Some (Run (Fixture.tester 0) FixtureOS.loaded)) /\
  workersFlag (FixtureOS.flags 0) <= 0 /\
  main_always Fixture.platform FixtureOS.fmt FixtureOS.os (FixtureOS.flags 0)
    Fixture.world0
    (fun out code w' =>
       code = 0 /\ w' = Fixture.world0 /\
       out = app
               (fst (main_start Fixture.platform FixtureOS.os
                       (FixtureOS.flags 0)))
               (map Stdout
                  [(NL ++ table_row FixtureOS.fmt "PROXY" "STATUS" "IP" "TIME"
                            "ERROR")%string;
                   (Repeat "-" 100 ++ NL)%string;
                   (NL ++ "Summary: 0/0 proxies working ("
                    ++ Sprintf_f FixtureOS.fmt 1 PrimFloat.nan ++ "%)"
                    ++ NL)%string])).
Proof.
  split; [reflexivity |]. split; [cbn; lia |].
  apply (main_no_workers Fixture.platform FixtureOS.fmt FixtureOS.os
           (FixtureOS.flags 0) Fixture.world0
           (fst (main_start Fixture.platform FixtureOS.os (FixtureOS.flags 0)))
           (Fixture.tester 0) FixtureOS.loaded);
    [reflexivity | cbn; lia].
Defined.
